(** * The pull-request refresh handler

    A shallow embedding of the refresh endpoint of the pull-request
    dashboard: [src/app/api/refresh/route.ts] (module [Route]) and its
    untyped variant (module [Part000]).

    The handler is an [async] function with a single [try]/[catch].  It
    reads three kinds of listings from the GitHub REST API, builds one
    record per open non-draft pull request, sorts the records by approval
    count and writes them to two Firestore collections.  It is modelled in
    a state-and-exception monad [Async] over a [World] that holds the
    document store, the log of issued source requests and the log of
    issued writes.

    The dashboard page [src/app/page.tsx] (module [Page]) is embedded
    too: its display helpers, the sort of the rows, and the functions
    that load the rows and trigger the refresh, in a second monad
    [Page.Client] over the page state and the backend. *)

From Stdlib Require Import ZArith Lia Sorted Ascii String.
From stdpp Require Import gmap strings list fin_maps pretty.

Local Open Scope string_scope.
Local Open Scope list_scope.
Local Open Scope nat_scope.

(** ** Configuration *)

Record Env := { GITHUB_ORG : string; GITHUB_TOKEN : string }.

Definition baseUri : string := "https://api.github.com/".

(** ** Payloads of the source API

    Only the fields the handler reads are kept.  [GitHubPullRequest.number]
    is a pull-request number: a natural number, which a template literal
    renders in decimal.  [GitHubPullRequest.user] is nullable upstream and
    the handler dereferences it without a check. *)

Module Repo.
Record t := { name : string }.
End Repo.

Module GitHubUser.
Record t := { login : string }.
End GitHubUser.

Module GitHubPullRequest.
Record t := {
  number : N;
  title : string;
  draft : bool;
  html_url : string;
  updated_at : string;
  user : option GitHubUser.t
}.
End GitHubPullRequest.

Module GitHubReview.
Record t := { state : string }.
End GitHubReview.

(** The value [await res.json()] evaluates to, as far as the handler can
    tell the shapes apart: [null], an object that is not an array (the
    error body [{ message: ... }] of a non-success status), or an array. *)
Inductive Json (A : Type) : Type :=
  | JNull
  | JObject
  | JArray (items : list A).
Arguments JNull {A}.
Arguments JObject {A}.
Arguments JArray {A} items.

(** What one call yields: [fetch] rejects, [res.json()] rejects, or a
    parsed body. *)
Inductive Reply (A : Type) : Type :=
  | FetchRejects
  | JsonRejects
  | Body (j : Json A).
Arguments FetchRejects {A}.
Arguments JsonRejects {A}.
Arguments Body {A} j.

(** The three calls of the handler.  The request log records which call
    was made; [url] and [headers] give the request sent for it. *)
Inductive Endpoint : Type :=
  | OrgRepos
  | RepoPulls (name : string)
  | PullReviews (name : string) (number : N).

Global Instance Endpoint_eq_dec : EqDecision Endpoint.
Proof. solve_decision. Defined.

Record Headers := { Authorization : string; Accept : string }.

Definition url (env : Env) (e : Endpoint) : string :=
  match e with
  | OrgRepos => baseUri +:+ "orgs/" +:+ GITHUB_ORG env +:+ "/repos"
  | RepoPulls name =>
      baseUri +:+ "repos/" +:+ GITHUB_ORG env +:+ "/" +:+ name
        +:+ "/pulls?state=open&per_page=20"
  | PullReviews name number =>
      baseUri +:+ "repos/" +:+ GITHUB_ORG env +:+ "/" +:+ name
        +:+ "/pulls/" +:+ pretty number +:+ "/reviews"
  end.

Definition headers (env : Env) : Headers :=
  {| Authorization := "Bearer " +:+ GITHUB_TOKEN env;
     Accept := "application/vnd.github+json" |}.

(** The source system, unchanged for the duration of a refresh. *)
Record Upstream := {
  orgRepos : Reply Repo.t;
  repoPulls : string → Reply GitHubPullRequest.t;
  pullReviews : string → N → Reply GitHubReview.t
}.

(** ** Records and documents *)

Module PR.
Record t := {
  id : string;
  title : string;
  repo : string;
  author : string;
  url : string;
  updated_at : string;
  approvals : nat
}.
End PR.

Inductive Value : Type :=
  | VString (s : string)
  | VNumber (n : Z).

(** A Firestore document is a finite map from field names to values; a
    store maps a (collection, document id) path to a document. *)
Abbreviation Doc := (gmap string Value).
Abbreviation Store := (gmap (string * string) (gmap string Value)).

Record Write := { ref : string * string; data : Doc; merge : bool }.

Record World := {
  store : Store;
  requests : list Endpoint;
  writes : list Write
}.

(** ** Exceptions and the [Async] monad *)

Inductive Exn : Type :=
  | TypeError_fetch_failed
  | SyntaxError_json
  | TypeError_not_iterable
  | TypeError_not_a_function
  | TypeError_property_of_null.

Inductive Outcome (A : Type) : Type :=
  | Return (a : A)
  | Throw (e : Exn).
Arguments Return {A} a.
Arguments Throw {A} e.

Definition Async (A : Type) : Type := World → Outcome A * World.

Global Instance Async_ret : MRet Async := λ A a w, (Return a, w).

Global Instance Async_bind : MBind Async := λ A B k m w,
  match m w with
  | (Return a, w') => k a w'
  | (Throw e, w') => (Throw e, w')
  end.

Definition throw {A} (e : Exn) : Async A := λ w, (Throw e, w).

Definition try_catch {A} (body : Async A) (handler : Exn → Async A) : Async A :=
  λ w,
    match body w with
    | (Return a, w') => (Return a, w')
    | (Throw e, w') => handler e w'
    end.

(** [for (const x of xs) body], with the variables the body assigns
    threaded as [acc]. *)
Fixpoint for_of {A S} (xs : list A) (body : A → S → Async S) (acc : S) : Async S :=
  match xs with
  | [] => mret acc
  | x :: xs' => acc' ← body x acc; for_of xs' body acc'
  end.

(** ** Primitives *)

(** [await fetch(url, { headers })] followed by [await res.json()]. *)
Definition fetch_json {A} (e : Endpoint) (reply : Reply A) : Async (Json A) :=
  λ w,
    let w' := {| store := store w;
                 requests := requests w ++ [e];
                 writes := writes w |} in
    match reply with
    | FetchRejects => (Throw TypeError_fetch_failed, w')
    | JsonRejects => (Throw SyntaxError_json, w')
    | Body j => (Return j, w')
    end.

(** [for (const x of j)]: only an array is iterable. *)
Definition iterable {A} (j : Json A) : Async (list A) :=
  match j with
  | JArray items => mret items
  | JNull | JObject => throw TypeError_not_iterable
  end.

(** [!j]. *)
Definition js_not {A} (j : Json A) : bool :=
  match j with
  | JNull => true
  | JObject | JArray _ => false
  end.

(** [j.length === 0] for a [j] that is not [null]. *)
Definition length_is_zero {A} (j : Json A) : bool :=
  match j with
  | JArray items => Nat.eqb (length items) 0
  | JNull | JObject => false
  end.

(** [j.filter(f)]. *)
Definition Array_filter {A} (f : A → bool) (j : Json A) : Async (list A) :=
  match j with
  | JArray items => mret (List.filter f items)
  | JObject => throw TypeError_not_a_function
  | JNull => throw TypeError_property_of_null
  end.

(** [x || d] on numbers: [0] is falsy. *)
Definition js_or (x d : Z) : Z := if (x =? 0)%Z then d else x.

(** [Array.prototype.sort(compareFn)]: a stable sort; [compareFn a b > 0]
    puts [a] after [b].  Each element is inserted in front of the sorted
    rest of the array, behind the elements it compares greater than. *)
Fixpoint sort_insert {A} (compareFn : A → A → Z) (x : A) (l : list A) : list A :=
  match l with
  | [] => [x]
  | y :: l' =>
      if (compareFn x y <=? 0)%Z then x :: y :: l'
      else y :: sort_insert compareFn x l'
  end.

Definition Array_sort {A} (compareFn : A → A → Z) (l : list A) : list A :=
  foldr (sort_insert compareFn) [] l.

(** Modelled from the spec: [setDoc] belongs to the Firestore SDK
    ([firebase/firestore]) and [db] to [../firebase]; neither is part of
    the sources.  [setDoc(doc(collection(db, col), id), data, { merge })]
    writes the document at path (col, id): with [merge] the fields of
    [data] overwrite the matching fields of the stored document and the
    other stored fields survive; without it the document is replaced.
    The store accepts every write: a write that the store rejects is not
    modelled.  In the handler such a rejection would reach the [catch]
    and be answered with status 500, the writes already applied staying
    in place; what is proved below about the write phase concerns the
    runs in which the store accepts the writes. *)
Definition setDoc_store (r : string * string) (d : Doc) (m : bool) (s : Store) : Store :=
  <[r := match s !! r with
         | Some old => if m then d ∪ old else d
         | None => d
         end]> s.

Definition setDoc (r : string * string) (d : Doc) (m : bool) : Async unit :=
  λ w,
    (Return tt,
     {| store := setDoc_store r d m (store w);
        requests := requests w;
        writes := writes w ++ [{| ref := r; data := d; merge := m |}] |}).

(** [await Promise.all(ps)]: the operations are started in array order. *)
Fixpoint Promise_all (ps : list (Async unit)) : Async unit :=
  match ps with
  | [] => mret tt
  | p :: ps' => _ ← p; Promise_all ps'
  end.

(** The document Firestore stores for a record object. *)
Definition to_doc (pr : PR.t) : Doc :=
  <["id" := VString (PR.id pr)]>
  (<["title" := VString (PR.title pr)]>
  (<["repo" := VString (PR.repo pr)]>
  (<["author" := VString (PR.author pr)]>
  (<["url" := VString (PR.url pr)]>
  (<["updated_at" := VString (PR.updated_at pr)]>
  {["approvals" := VNumber (Z.of_nat (PR.approvals pr))]}))))).

Definition metadata_doc (lastRefresh : string) (lastRefreshCount : nat) : Doc :=
  <["lastRefresh" := VString lastRefresh]>
  {["lastRefreshCount" := VNumber (Z.of_nat lastRefreshCount)]}.

(** ** Responses *)

Record ResponseBody := {
  success : bool;
  count : option nat;
  error : option Exn
}.

Record Response := { status : nat; body : ResponseBody }.

Module NextResponse.
Definition json (b : ResponseBody) (init : option nat) : Response :=
  {| status := default 200 init; body := b |}.
End NextResponse.

(** ** The typed handler: [src/app/api/refresh/route.ts] *)

Module Route.

(** The comparator of step 3. *)
Definition compareFn (a b : PR.t) : Z :=
  (js_or (Z.of_nat (PR.approvals a)) 0 - js_or (Z.of_nat (PR.approvals b)) 0)%Z.

(** The object pushed onto [allPRs]. *)
Definition record (env : Env) (repo : Repo.t) (pr : GitHubPullRequest.t)
    (user : GitHubUser.t) (approvalCount : nat) : PR.t :=
  {| PR.id := Repo.name repo +:+ "-" +:+ pretty (GitHubPullRequest.number pr);
     PR.title := GitHubPullRequest.title pr;
     PR.repo := GITHUB_ORG env +:+ "/" +:+ Repo.name repo;
     PR.author := GitHubUser.login user;
     PR.url := GitHubPullRequest.html_url pr;
     PR.updated_at := GitHubPullRequest.updated_at pr;
     PR.approvals := approvalCount |}.

(** Body of the loop over the non-draft pull requests of [repo]. *)
Definition pr_body (env : Env) (up : Upstream) (repo : Repo.t)
    (pr : GitHubPullRequest.t) (allPRs : list PR.t) : Async (list PR.t) :=
  reviews ← fetch_json
    (PullReviews (Repo.name repo) (GitHubPullRequest.number pr))
    (pullReviews up (Repo.name repo) (GitHubPullRequest.number pr));
  approved ← Array_filter
    (λ r, String.eqb (GitHubReview.state r) "APPROVED") reviews;
  let approvalCount := length approved in
  user ← match GitHubPullRequest.user pr with
         | Some u => mret u
         | None => throw TypeError_property_of_null
         end;
  mret (allPRs ++ [record env repo pr user approvalCount]).

(** Body of the loop over the repositories. *)
Definition repo_body (env : Env) (up : Upstream)
    (repo : Repo.t) (allPRs : list PR.t) : Async (list PR.t) :=
  pulls ← fetch_json (RepoPulls (Repo.name repo)) (repoPulls up (Repo.name repo));
  if js_not pulls || length_is_zero pulls then mret allPRs
  else
    open ← Array_filter (λ p, negb (GitHubPullRequest.draft p)) pulls;
    for_of open (pr_body env up repo) allPRs.

(** Steps 1 to 3: the value of [allPRs] when step 4 starts. *)
Definition allPRs (env : Env) (up : Upstream) : Async (list PR.t) :=
  repos ← fetch_json OrgRepos (orgRepos up);
  repos ← iterable repos;
  allPRs ← for_of repos (repo_body env up) [];
  mret (Array_sort compareFn allPRs).

(** The handler; [now] is what [new Date().toISOString()] gives at
    step 5. *)
Definition GET (env : Env) (up : Upstream) (now : string) : Async Response :=
  try_catch
    (allPRs ← allPRs env up;
     _ ← Promise_all
           (map (λ pr, setDoc ("prs", PR.id pr) (to_doc pr) true) allPRs);
     _ ← setDoc ("metadata", "system")
           (metadata_doc now (length allPRs)) true;
     mret (NextResponse.json
             {| success := true; count := Some (length allPRs); error := None |}
             None))
    (λ error,
     mret (NextResponse.json
             {| success := false; count := None; error := Some error |}
             (Some 500))).

End Route.

(** ** The untyped variant of the handler *)

Module Part000.

Definition compareFn (a b : PR.t) : Z :=
  (Z.of_nat (PR.approvals a) - Z.of_nat (PR.approvals b))%Z.

Definition record (env : Env) (repo : Repo.t) (pr : GitHubPullRequest.t)
    (user : GitHubUser.t) (approvalCount : nat) : PR.t :=
  {| PR.id := Repo.name repo +:+ "-" +:+ pretty (GitHubPullRequest.number pr);
     PR.title := GitHubPullRequest.title pr;
     PR.repo := GITHUB_ORG env +:+ "/" +:+ Repo.name repo;
     PR.author := GitHubUser.login user;
     PR.url := GitHubPullRequest.html_url pr;
     PR.updated_at := GitHubPullRequest.updated_at pr;
     PR.approvals := approvalCount |}.

Definition pr_body (env : Env) (up : Upstream) (repo : Repo.t)
    (pr : GitHubPullRequest.t) (allPRs : list PR.t) : Async (list PR.t) :=
  reviews ← fetch_json
    (PullReviews (Repo.name repo) (GitHubPullRequest.number pr))
    (pullReviews up (Repo.name repo) (GitHubPullRequest.number pr));
  approved ← Array_filter
    (λ r, String.eqb (GitHubReview.state r) "APPROVED") reviews;
  let approvalCount := length approved in
  user ← match GitHubPullRequest.user pr with
         | Some u => mret u
         | None => throw TypeError_property_of_null
         end;
  mret (allPRs ++ [record env repo pr user approvalCount]).

Definition repo_body (env : Env) (up : Upstream)
    (repo : Repo.t) (allPRs : list PR.t) : Async (list PR.t) :=
  pulls ← fetch_json (RepoPulls (Repo.name repo)) (repoPulls up (Repo.name repo));
  if js_not pulls || length_is_zero pulls then mret allPRs
  else
    open ← Array_filter (λ p, negb (GitHubPullRequest.draft p)) pulls;
    for_of open (pr_body env up repo) allPRs.

Definition allPRs (env : Env) (up : Upstream) : Async (list PR.t) :=
  repos ← fetch_json OrgRepos (orgRepos up);
  repos ← iterable repos;
  allPRs ← for_of repos (repo_body env up) [];
  mret (Array_sort compareFn allPRs).

Definition GET (env : Env) (up : Upstream) (now : string) : Async Response :=
  try_catch
    (allPRs ← allPRs env up;
     _ ← Promise_all
           (map (λ pr, setDoc ("prs", PR.id pr) (to_doc pr) true) allPRs);
     _ ← setDoc ("metadata", "system")
           (metadata_doc now (length allPRs)) true;
     mret (NextResponse.json
             {| success := true; count := Some (length allPRs); error := None |}
             None))
    (λ error,
     mret (NextResponse.json
             {| success := false; count := None; error := Some error |}
             (Some 500))).

End Part000.

(** The world a request starts in: a store and empty logs. *)
Definition init (s : Store) : World :=
  {| store := s; requests := []; writes := [] |}.

(** ** What a refresh is expected to read

    The listings as the loops see them, the request sequence of a refresh
    that runs to the end, and the records in encounter order. *)

Definition repos_of (up : Upstream) : list Repo.t :=
  match orgRepos up with Body (JArray l) => l | _ => [] end.

Definition pulls_of (up : Upstream) (name : string) : list GitHubPullRequest.t :=
  match repoPulls up name with Body (JArray l) => l | _ => [] end.

Definition reviews_of (up : Upstream) (name : string) (number : N) : list GitHubReview.t :=
  match pullReviews up name number with Body (JArray l) => l | _ => [] end.

Definition open_pulls (up : Upstream) (name : string) : list GitHubPullRequest.t :=
  List.filter (λ p, negb (GitHubPullRequest.draft p)) (pulls_of up name).

Definition approved (reviews : list GitHubReview.t) : list GitHubReview.t :=
  List.filter (λ r, String.eqb (GitHubReview.state r) "APPROVED") reviews.

Definition record_of (env : Env) (up : Upstream)
    (repo : Repo.t) (pr : GitHubPullRequest.t) : PR.t :=
  Route.record env repo pr
    (default {| GitHubUser.login := "" |} (GitHubPullRequest.user pr))
    (length (approved
       (reviews_of up (Repo.name repo) (GitHubPullRequest.number pr)))).

Definition review_requests (up : Upstream) (repo : Repo.t) : list Endpoint :=
  map (λ pr, PullReviews (Repo.name repo) (GitHubPullRequest.number pr))
    (open_pulls up (Repo.name repo)).

Definition repo_requests (up : Upstream) (repo : Repo.t) : list Endpoint :=
  RepoPulls (Repo.name repo) :: review_requests up repo.

Definition expected_requests (up : Upstream) : list Endpoint :=
  OrgRepos :: flat_map (repo_requests up) (repos_of up).

Definition repo_records (env : Env) (up : Upstream) (repo : Repo.t) : list PR.t :=
  map (record_of env up repo) (open_pulls up (Repo.name repo)).

Definition encountered (env : Env) (up : Upstream) : list PR.t :=
  flat_map (repo_records env up) (repos_of up).

(** The replies a refresh needs in order to reach step 4. *)
Definition reviewable (up : Upstream) (repo : Repo.t) (pr : GitHubPullRequest.t) : Prop :=
  pullReviews up (Repo.name repo) (GitHubPullRequest.number pr)
    = Body (JArray (reviews_of up (Repo.name repo) (GitHubPullRequest.number pr)))
  ∧ is_Some (GitHubPullRequest.user pr).

Definition listable (up : Upstream) (repo : Repo.t) : Prop :=
  (repoPulls up (Repo.name repo) = Body JNull
   ∨ repoPulls up (Repo.name repo) = Body (JArray (pulls_of up (Repo.name repo))))
  ∧ Forall (reviewable up repo) (open_pulls up (Repo.name repo)).

Definition well_formed (up : Upstream) : Prop :=
  orgRepos up = Body (JArray (repos_of up))
  ∧ Forall (listable up) (repos_of up).

(** A source call that fails: the transport fails, the body is not JSON,
    or the body is an error object instead of the listing. *)
Definition reply_failed {A} (r : Reply A) : bool :=
  match r with
  | FetchRejects | JsonRejects | Body JObject => true
  | Body JNull | Body (JArray _) => false
  end.

Definition call_failed (up : Upstream) (e : Endpoint) : bool :=
  match e with
  | OrgRepos => reply_failed (orgRepos up)
  | RepoPulls name => reply_failed (repoPulls up name)
  | PullReviews name number => reply_failed (pullReviews up name number)
  end.

(** ** Reasoning about the fetch phase

    [log w t] is [w] after the requests [t].  [reads m tr post] says that
    [m] only issues requests, the same ones from every world: a prefix of
    [tr] and, when [m] returns, all of [tr] with a value satisfying
    [post]. *)

Definition log (w : World) (t : list Endpoint) : World :=
  {| store := store w; requests := requests w ++ t; writes := writes w |}.

Definition reads {A} (m : Async A) (tr : list Endpoint) (post : A → Prop) : Prop :=
  ∃ o t, (∀ w, m w = (o, log w t))
         ∧ t `prefix_of` tr
         ∧ ∀ a, o = Return a → t = tr ∧ post a.

(** ** What a refresh writes

    The store and the logs after the write phase, and the two responses. *)

Definition upsert (s : Store) (pr : PR.t) : Store :=
  setDoc_store ("prs", PR.id pr) (to_doc pr) true s.

Definition write_of (pr : PR.t) : Write :=
  {| ref := ("prs", PR.id pr); data := to_doc pr; merge := true |}.

Definition metadata_write (now : string) (n : nat) : Write :=
  {| ref := ("metadata", "system"); data := metadata_doc now n; merge := true |}.

Definition persisted (now : string) (allPRs : list PR.t) (w : World) : World :=
  {| store := setDoc_store ("metadata", "system")
                (metadata_doc now (length allPRs)) true
                (foldl upsert (store w) allPRs);
     requests := requests w;
     writes := (writes w ++ map write_of allPRs)
                 ++ [metadata_write now (length allPRs)] |}.

Definition ok_response (n : nat) : Response :=
  NextResponse.json {| success := true; count := Some n; error := None |} None.

Definition error_response (e : Exn) : Response :=
  NextResponse.json
    {| success := false; count := None; error := Some e |} (Some 500).

(** The fields of a record document, and the effect of one upsert on the
    document stored under an id. *)

(** The document [d] has the seven fields of the record [pr], with the
    values of [pr]. *)
Definition carries (d : Doc) (pr : PR.t) : Prop :=
  d !! "id" = Some (VString (PR.id pr))
  ∧ d !! "title" = Some (VString (PR.title pr))
  ∧ d !! "repo" = Some (VString (PR.repo pr))
  ∧ d !! "author" = Some (VString (PR.author pr))
  ∧ d !! "url" = Some (VString (PR.url pr))
  ∧ d !! "updated_at" = Some (VString (PR.updated_at pr))
  ∧ d !! "approvals" = Some (VNumber (Z.of_nat (PR.approvals pr))).

Definition record_fields : list string :=
  ["id"; "title"; "repo"; "author"; "url"; "updated_at"; "approvals"].

Definition merge_doc (d : Doc) (o : option Doc) : Doc :=
  match o with Some old => d ∪ old | None => d end.

Definition doc_step (k : string) (o : option Doc) (pr : PR.t) : option Doc :=
  if decide (PR.id pr = k) then Some (merge_doc (to_doc pr) o) else o.

(** A string without a dash. *)
Fixpoint dashless (s : string) : Prop :=
  match s with
  | EmptyString => True
  | String c s' => c ≠ "-"%char ∧ dashless s'
  end.


(** ** A sample organization *)

Definition sample_reviews : list GitHubReview.t :=
  [ {| GitHubReview.state := "APPROVED" |};
    {| GitHubReview.state := "COMMENTED" |};
    {| GitHubReview.state := "APPROVED" |} ].

Definition sample_pull (n : N) (d : bool) : GitHubPullRequest.t :=
  {| GitHubPullRequest.number := n;
     GitHubPullRequest.title := "Fix " +:+ pretty n;
     GitHubPullRequest.draft := d;
     GitHubPullRequest.html_url := "https://github.com/acme/web/pull/" +:+ pretty n;
     GitHubPullRequest.updated_at := "2025-01-01T00:00:00Z";
     GitHubPullRequest.user := Some {| GitHubUser.login := "octocat" |} |}.

Definition sample_env : Env :=
  {| GITHUB_ORG := "acme"; GITHUB_TOKEN := "t0ken" |}.

Definition sample_up : Upstream :=
  {| orgRepos := Body (JArray [ {| Repo.name := "web" |}; {| Repo.name := "api" |} ]);
     repoPulls := λ name,
       if String.eqb name "web"
       then Body (JArray [sample_pull 7 false; sample_pull 8 true; sample_pull 9 false])
       else Body (JArray [sample_pull 1 false]);
     pullReviews := λ name number,
       if N.eqb number 7 then Body (JArray sample_reviews)
       else Body (JArray [ {| GitHubReview.state := "approved" |};
                           {| GitHubReview.state := "CHANGES_REQUESTED" |} ]) |}.

(** The same organization when the repository listing cannot be fetched. *)
Definition failing_up : Upstream :=
  {| orgRepos := FetchRejects;
     repoPulls := repoPulls sample_up;
     pullReviews := pullReviews sample_up |}.

Definition sample_record (name : string) (n : N) (approvals : nat) : PR.t :=
  {| PR.id := name +:+ "-" +:+ pretty n;
     PR.title := "Fix " +:+ pretty n;
     PR.repo := "acme/" +:+ name;
     PR.author := "octocat";
     PR.url := "https://github.com/acme/web/pull/" +:+ pretty n;
     PR.updated_at := "2025-01-01T00:00:00Z";
     PR.approvals := approvals |}.

Definition sample_records : list PR.t :=
  [sample_record "web" 9 0; sample_record "api" 1 0; sample_record "web" 7 2].

Definition sample_requests : list Endpoint :=
  [OrgRepos; RepoPulls "web"; PullReviews "web" 7; PullReviews "web" 9;
   RepoPulls "api"; PullReviews "api" 1].

(** An organization without repositories, and a store left by earlier
    refreshes. *)
Definition empty_up : Upstream :=
  {| orgRepos := Body (JArray []);
     repoPulls := λ _, Body JNull;
     pullReviews := λ _ _, Body JNull |}.

Definition stale_doc : Doc :=
  <["pinned" := VString "yes"]> {["approvals" := VNumber 1]}.

Definition stale_store : Store :=
  <[("prs", "web-7") := stale_doc]>
  {[("metadata", "system") := {["lastRefreshCount" := VNumber 5]}]}.

Definition sample_now : string := "2025-01-02T03:04:05.000Z".

Definition sample_world (s : Store) : World :=
  persisted sample_now sample_records
    {| store := s; requests := sample_requests; writes := [] |}.

Definition later_now : string := "2025-01-02T03:04:09.000Z".

Definition later_world : World :=
  persisted later_now sample_records
    {| store := store (sample_world stale_store);
       requests := sample_requests; writes := [] |}.

(** ** The dashboard page: [src/app/page.tsx]

    The page keeps the rows it shows, a loading flag, the view and sort
    modes and the time of the last refresh in React state; it reads the
    rows and the metadata document from Firestore and triggers the refresh
    endpoint on demand. *)

Module Page.

(** A row as the interface [PR] of the page declares it; an absent field
    is [undefined]. *)
Module PR.
Record t := {
  id : string;
  title : option string;
  repo : option string;
  author : option string;
  url : option string;
  approvals : option Z;
  updated_at : option string
}.
End PR.

(** A [Date] object: its time value in milliseconds, or an invalid date
    (time value [NaN]). *)
Inductive Date : Type :=
  | InvalidDate
  | Time (ms : Z).

(** [date.getTime()]; [None] stands for [NaN]. *)
Definition getTime (d : Date) : option Z :=
  match d with
  | InvalidDate => None
  | Time ms => Some ms
  end.

(** What the page takes from the JavaScript platform: [new Date(s)] for
    a string, [date.toLocaleDateString('en-US', ...)] and
    [a.localeCompare(b)]. *)
Record Platform := {
  Date_parse : string → Date;
  toLocaleDateString : Date → string;
  localeCompare : string → string → Z
}.

(** [getApprovalBadgeColor(approvals = 0)]. *)
Definition getApprovalBadgeColor (approvals : option Z) : string :=
  let approvals := default 0%Z approvals in
  if (approvals =? 0)%Z then "bg-red-100 text-red-800"
  else if (approvals =? 1)%Z then "bg-yellow-100 text-yellow-800"
  else "bg-green-100 text-green-800".

(** [getPriorityIcon(approvals = 0)]. *)
Definition getPriorityIcon (approvals : option Z) : string :=
  let approvals := default 0%Z approvals in
  if (approvals =? 0)%Z then "🔴"
  else if (approvals <=? 2)%Z then "🟡"
  else "🟢".

(** The comparator of [sortedPrs].  [x || d] on an optional string or
    number is [default d x] up to [js_or]; a difference of time values
    one of which is [NaN] is [NaN], which [sort] takes as [0]. *)
Definition compareFn (pf : Platform) (sortBy : string) (a b : PR.t) : Z :=
  if String.eqb sortBy "approvals" then
    (js_or (default 0 (PR.approvals a)) 0 - js_or (default 0 (PR.approvals b)) 0)%Z
  else if String.eqb sortBy "updated" then
    match getTime (Date_parse pf (default "" (PR.updated_at b))),
          getTime (Date_parse pf (default "" (PR.updated_at a))) with
    | Some tb, Some ta => (tb - ta)%Z
    | _, _ => 0%Z
    end
  else if String.eqb sortBy "title" then
    localeCompare pf (default "" (PR.title a)) (default "" (PR.title b))
  else 0%Z.

(** [[...prs].sort(...)]. *)
Definition sortedPrs (pf : Platform) (sortBy : string) (prs : list PR.t) : list PR.t :=
  Array_sort (compareFn pf sortBy) prs.

(** [formatLastRefresh(date)], [now] being the time value of
    [new Date()].  Every comparison with [NaN] is false, so an invalid
    date reaches the last [return]. *)
Definition formatLastRefresh (pf : Platform) (now : Z) (date : option Date) : option string :=
  match date with
  | None => None
  | Some InvalidDate => Some (toLocaleDateString pf InvalidDate)
  | Some (Time t) =>
      let diffMs := (now - t)%Z in
      let diffMins := (diffMs / 60000)%Z in
      let diffHours := (diffMs / 3600000)%Z in
      if (diffMins <? 1)%Z then Some "Just now"
      else if (diffMins <? 60)%Z then Some (pretty diffMins +:+ "m ago")
      else if (diffHours <? 24)%Z then Some (pretty diffHours +:+ "h ago")
      else Some (toLocaleDateString pf (Time t))
  end.

(** *** State and effects *)

Record State := {
  prs : list PR.t;
  loading : bool;
  viewMode : string;
  sortBy : string;
  lastRefresh : option Date
}.

(** The browser tab together with the backend it talks to. *)
Record Browser := { page : State; backend : World }.

(** What can go wrong outside the page during one interaction, and what
    the rows query returns: whether [fetch("/api/refresh")] resolves, the
    snapshot of [getDocs(query(collection(db, "prs"), orderBy("approvals",
    "asc")))] as (document id, data) pairs ([None] when it rejects), and
    whether [getDoc] rejects. *)
Record Network := {
  refresh_reachable : bool;
  getDocs_prs : Store → option (list (string * Doc));
  getDoc_rejects : bool
}.

Inductive Rejection : Type :=
  | fetch_rejected
  | firestore_rejected.

Definition Client (A : Type) : Type := Browser → (A + Rejection) * Browser.

Global Instance Client_ret : MRet Client := λ A a b, (inl a, b).

Global Instance Client_bind : MBind Client := λ A B k m b,
  match m b with
  | (inl a, b') => k a b'
  | (inr e, b') => (inr e, b')
  end.

Definition reject {A} (e : Rejection) : Client A := λ b, (inr e, b).

(** [try { body } catch (error) { handler }]. *)
Definition try_catch {A} (body : Client A) (handler : Rejection → Client A) : Client A :=
  λ b,
    match body b with
    | (inl a, b') => (inl a, b')
    | (inr e, b') => handler e b'
    end.

(** [try { body } finally { final }]: [final] runs in either case and the
    outcome of [body] stands unless [final] itself rejects. *)
Definition try_finally {A} (body : Client A) (final : Client unit) : Client A :=
  λ b,
    let '(r, b1) := body b in
    match final b1 with
    | (inl _, b2) => (r, b2)
    | (inr e, b2) => (inr e, b2)
    end.

Definition setPrs (rows : list PR.t) : Client unit :=
  λ b,
    (inl tt,
     {| page := {| prs := rows;
                   loading := loading (page b);
                   viewMode := viewMode (page b);
                   sortBy := sortBy (page b);
                   lastRefresh := lastRefresh (page b) |};
        backend := backend b |}).

Definition setLoading (flag : bool) : Client unit :=
  λ b,
    (inl tt,
     {| page := {| prs := prs (page b);
                   loading := flag;
                   viewMode := viewMode (page b);
                   sortBy := sortBy (page b);
                   lastRefresh := lastRefresh (page b) |};
        backend := backend b |}).

Definition setLastRefresh (d : option Date) : Client unit :=
  λ b,
    (inl tt,
     {| page := {| prs := prs (page b);
                   loading := loading (page b);
                   viewMode := viewMode (page b);
                   sortBy := sortBy (page b);
                   lastRefresh := d |};
        backend := backend b |}).

(** [await getDoc(doc(db, "metadata", "system"))]: the stored document,
    if there is one. *)
Definition getDoc (net : Network) (r : string * string) : Client (option Doc) :=
  λ b,
    if getDoc_rejects net then (inr firestore_rejected, b)
    else (inl (store (backend b) !! r), b).

Definition getDocs (net : Network) : Client (list (string * Doc)) :=
  λ b,
    match getDocs_prs net (store (backend b)) with
    | Some docs => (inl docs, b)
    | None => (inr firestore_rejected, b)
    end.

(** [await fetch("/api/refresh")]: the request runs the handler on the
    backend; the page does not look at the response. *)
Definition fetch_refresh (env : Env) (up : Upstream) (now : string)
    (net : Network) : Client unit :=
  λ b,
    if refresh_reachable net then
      (inl tt,
       {| page := page b; backend := (Route.GET env up now (backend b)).2 |})
    else (inr fetch_rejected, b).

(** Truthiness of a stored value. *)
Definition truthy (v : Value) : bool :=
  match v with
  | VString s => negb (String.eqb s "")
  | VNumber n => negb (n =? 0)%Z
  end.

(** [new Date(v)] for a stored value; a number is a time value, valid up
    to 8.64e15 milliseconds either way. *)
Definition Date_new (pf : Platform) (v : Value) : Date :=
  match v with
  | VString s => Date_parse pf s
  | VNumber n =>
      if (Z.abs n <=? 8640000000000000)%Z then Time n else InvalidDate
  end.

Definition fetchLastRefreshFromFirestore (pf : Platform) (net : Network) : Client unit :=
  try_catch
    (metadataDoc ← getDoc net ("metadata", "system");
     match metadataDoc with
     | Some data =>
         match data !! "lastRefresh" with
         | Some v =>
             if truthy v then setLastRefresh (Some (Date_new pf v))
             else mret tt
         | None => mret tt
         end
     | None => mret tt
     end)
    (λ error, mret tt).

(** [{ id: doc.id, ...doc.data() } as PR]: the fields of the data, read at
    the types the interface declares; an [id] field of the data replaces
    the document id. *)
Definition string_field (data : Doc) (f : string) : option string :=
  match data !! f with
  | Some (VString s) => Some s
  | _ => None
  end.

Definition number_field (data : Doc) (f : string) : option Z :=
  match data !! f with
  | Some (VNumber n) => Some n
  | _ => None
  end.

Definition row (doc_id : string) (data : Doc) : PR.t :=
  {| PR.id := default doc_id (string_field data "id");
     PR.title := string_field data "title";
     PR.repo := string_field data "repo";
     PR.author := string_field data "author";
     PR.url := string_field data "url";
     PR.approvals := number_field data "approvals";
     PR.updated_at := string_field data "updated_at" |}.

Definition fetchPrsFromFirestore (pf : Platform) (net : Network) : Client unit :=
  snapshot ← getDocs net;
  _ ← setPrs (map (λ doc, row doc.1 doc.2) snapshot);
  fetchLastRefreshFromFirestore pf net.

Definition handleRefresh (env : Env) (up : Upstream) (now : string)
    (pf : Platform) (net : Network) : Client unit :=
  try_finally
    (try_catch
       (_ ← setLoading true;
        _ ← fetch_refresh env up now net;
        fetchPrsFromFirestore pf net)
       (λ error, mret tt))
    (setLoading false).

End Page.

(** The row that shows a record of the refresh handler. *)
Definition row_of_record (r : PR.t) : Page.PR.t :=
  {| Page.PR.id := PR.id r;
     Page.PR.title := Some (PR.title r);
     Page.PR.repo := Some (PR.repo r);
     Page.PR.author := Some (PR.author r);
     Page.PR.url := Some (PR.url r);
     Page.PR.approvals := Some (Z.of_nat (PR.approvals r));
     Page.PR.updated_at := Some (PR.updated_at r) |}.

(** The time value a row is sorted by in the mode [updated]. *)
Definition updated_time (pf : Page.Platform) (r : Page.PR.t) : option Z :=
  Page.getTime (Page.Date_parse pf (default "" (Page.PR.updated_at r))).

(** A string in which the character [c] does not occur. *)
Fixpoint without (c : ascii) (s : string) : Prop :=
  match s with
  | EmptyString => True
  | String a s' => a ≠ c ∧ without c s'
  end.

(** ** Stopping at the first failed call

    [clean up t]: no call of [t] failed.  [stops_at_failure up m]: of the
    requests [m] issues, only the last one can be a failed call, and then
    [m] throws. *)

Definition clean (up : Upstream) (t : list Endpoint) : Prop :=
  Forall (λ e, call_failed up e = false) t.

Definition stops_at_failure (up : Upstream) {A} (m : Async A) : Prop :=
  ∀ w o w', m w = (o, w') →
    ∃ t, w' = log w t
         ∧ match o with
           | Return _ => clean up t
           | Throw _ => ∃ t', clean up t' ∧ (t = t' ∨ ∃ e, t = t' ++ [e])
           end.

(** ** More samples *)

(** The sample organization with a pull request whose author is gone. *)
Definition ghost_pull : GitHubPullRequest.t :=
  {| GitHubPullRequest.number := 4;
     GitHubPullRequest.title := "Fix 4";
     GitHubPullRequest.draft := false;
     GitHubPullRequest.html_url := "https://github.com/acme/web/pull/4";
     GitHubPullRequest.updated_at := "2025-01-01T00:00:00Z";
     GitHubPullRequest.user := None |}.

Definition ghost_up : Upstream :=
  {| orgRepos := orgRepos sample_up;
     repoPulls := λ name, Body (JArray [sample_pull 7 false; ghost_pull]);
     pullReviews := pullReviews sample_up |}.

(** The sample organization when the pulls listing of a repository
    answers with an error object. *)
Definition broken_up : Upstream :=
  {| orgRepos := orgRepos sample_up;
     repoPulls := λ name, Body JObject;
     pullReviews := pullReviews sample_up |}.

Definition sample_platform : Page.Platform :=
  {| Page.Date_parse := λ s,
       if String.eqb s "2025-01-01T00:00:00Z" then Page.Time 1735689600000
       else if String.eqb s "2025-01-02T03:04:05.000Z" then Page.Time 1735787045000
       else if String.eqb s "2024-12-31T00:00:00Z" then Page.Time 1735603200000
       else Page.InvalidDate;
     Page.toLocaleDateString := λ d, "Jan 1, 12:00 AM";
     Page.localeCompare := λ a b,
       match String.compare a b with Lt => (-1)%Z | Eq => 0%Z | Gt => 1%Z end |}.

(** A network on which every call goes through; the rows query returns
    the stored documents of three ids. *)
Definition sample_net : Page.Network :=
  {| Page.refresh_reachable := true;
     Page.getDocs_prs := λ s,
       Some (omap (λ k, (λ d : Doc, (k, d)) <$> s !! ("prs", k))
               ["api-1"; "web-9"; "web-7"]);
     Page.getDoc_rejects := false |}.

Definition initial_state : Page.State :=
  {| Page.prs := [];
     Page.loading := false;
     Page.viewMode := "grid";
     Page.sortBy := "approvals";
     Page.lastRefresh := None |}.

Definition sample_browser : Page.Browser :=
  {| Page.page := initial_state; Page.backend := init stale_store |}.

Definition sample_docs : list (string * Doc) :=
  omap (λ k, (λ d : Doc, (k, d)) <$> store (sample_world stale_store) !! ("prs", k))
    ["api-1"; "web-9"; "web-7"].

Definition sample_browser_after : Page.Browser :=
  {| Page.page :=
       {| Page.prs := map (λ doc, Page.row doc.1 doc.2) sample_docs;
          Page.loading := false;
          Page.viewMode := "grid";
          Page.sortBy := "approvals";
          Page.lastRefresh := Some (Page.Time 1735787045000) |};
     Page.backend := sample_world stale_store |}.

Definition sample_row (id : string) (approvals : option Z) (updated_at : string) : Page.PR.t :=
  {| Page.PR.id := id;
     Page.PR.title := Some "Fix";
     Page.PR.repo := Some "acme/web";
     Page.PR.author := Some "octocat";
     Page.PR.url := None;
     Page.PR.approvals := approvals;
     Page.PR.updated_at := Some updated_at |}.

Definition sample_rows : list Page.PR.t :=
  [sample_row "web-1" None "2025-01-01T00:00:00Z";
   sample_row "web-2" (Some 0%Z) "2024-12-31T00:00:00Z";
   sample_row "web-3" (Some 2%Z) "2025-01-01T00:00:00Z"].

(** * Proofs *)

(** ** The fetch phase *)

Lemma log_nil w : log w [] = w.
Proof. destruct w; unfold log; simpl. by rewrite app_nil_r. Qed.

Lemma log_app w t u : log (log w t) u = log w (t ++ u).
Proof. unfold log; simpl. by rewrite app_assoc. Qed.

Lemma reads_ret {A} (a : A) (post : A → Prop) :
  post a → reads (mret a) [] post.
Proof.
  intros Hp. exists (Return a), []. split; [|split].
  - intros w. by rewrite log_nil.
  - done.
  - intros a' [= <-]. done.
Qed.

Lemma reads_throw {A} (e : Exn) tr (post : A → Prop) :
  reads (throw e) tr post.
Proof.
  exists (Throw e), []. split; [|split].
  - intros w. unfold throw. by rewrite log_nil.
  - apply prefix_nil.
  - discriminate.
Qed.

Lemma reads_bind {A B} (m : Async A) (k : A → Async B) tr1 tr2
    (P : A → Prop) (Q : B → Prop) :
  reads m tr1 P →
  (∀ a, P a → reads (k a) tr2 Q) →
  reads (m ≫= k) (tr1 ++ tr2) Q.
Proof.
  intros (o & t & Hm & Hpre & Hret) Hk. destruct o as [a|e].
  - destruct (Hret a eq_refl) as [-> Ha].
    destruct (Hk a Ha) as (o' & t' & Hk' & Hpre' & Hret').
    exists o', (tr1 ++ t'). split; [|split].
    + intros w. unfold mbind, Async_bind. by rewrite Hm, Hk', log_app.
    + by apply prefix_app.
    + intros b Hb. destruct (Hret' b Hb) as [-> ?]. done.
  - exists (Throw e), t. split; [|split].
    + intros w. unfold mbind, Async_bind. by rewrite Hm.
    + by apply prefix_app_r.
    + discriminate.
Qed.

Lemma reads_weaken {A} (m : Async A) tr (P Q : A → Prop) :
  reads m tr P → (∀ a, P a → Q a) → reads m tr Q.
Proof.
  intros (o & t & Hm & Hpre & Hret) HPQ. exists o, t.
  split; [done|split; [done|]]. intros a Ha.
  destruct (Hret a Ha). auto.
Qed.

Lemma reads_fetch_json {A} (e : Endpoint) (reply : Reply A) :
  reads (fetch_json e reply) [e] (λ j, reply = Body j).
Proof.
  exists (match reply with
          | FetchRejects => Throw TypeError_fetch_failed
          | JsonRejects => Throw SyntaxError_json
          | Body j => Return j
          end), [e].
  split; [|split].
  - intros w. unfold fetch_json. by destruct reply.
  - done.
  - intros a Ha. by destruct reply; simplify_eq.
Qed.

Lemma reads_for_of {A S} (body : A → list S → Async (list S))
    (tr : A → list Endpoint) (f : A → list S) (Q : A → Prop) (xs : list A) :
  (∀ x, In x xs → ∀ acc,
     reads (body x acc) (tr x) (λ out, out = acc ++ f x ∧ Q x)) →
  ∀ acc, reads (for_of xs body acc) (flat_map tr xs)
           (λ out, out = acc ++ flat_map f xs ∧ Forall Q xs).
Proof.
  induction xs as [|x xs IH]; intros Hbody acc; simpl.
  - apply reads_ret. by rewrite app_nil_r.
  - eapply reads_bind.
    + apply Hbody. by left.
    + intros acc' [-> HQ]. eapply reads_weaken.
      * apply IH. intros y Hy. apply Hbody. by right.
      * intros out [-> HF]. split; [by rewrite app_assoc|by constructor].
Qed.

Lemma flat_map_single {A B} (g : A → B) (l : list A) :
  flat_map (λ x, [g x]) l = map g l.
Proof. induction l as [|x l IH]; simpl; [done|]. by rewrite IH. Qed.

Lemma reads_ret_bind {A B} (a : A) (k : A → Async B) tr (Q : B → Prop) :
  reads (k a) tr Q → reads (mret a ≫= k) tr Q.
Proof. intros H. exact H. Qed.

Lemma reads_throw_bind {A B} (e : Exn) (k : A → Async B) tr (Q : B → Prop) :
  reads (throw e ≫= k) tr Q.
Proof. exact (reads_throw e tr Q). Qed.

Lemma pr_body_reads env up repo pr acc :
  reads (Route.pr_body env up repo pr acc)
    [PullReviews (Repo.name repo) (GitHubPullRequest.number pr)]
    (λ out, out = acc ++ [record_of env up repo pr] ∧ reviewable up repo pr).
Proof.
  unfold Route.pr_body.
  eapply (reads_bind _ _ [_] []); [apply reads_fetch_json|].
  intros [| |reviews] Hreply; simpl;
    [apply reads_throw_bind..|apply reads_ret_bind].
  destruct (GitHubPullRequest.user pr) as [u|] eqn:Hu;
    [apply reads_ret_bind|apply reads_throw_bind].
  apply reads_ret.
  unfold record_of, reviewable, reviews_of. rewrite Hreply, Hu. simpl.
  split; [done|split; [done|by eexists]].
Qed.

Lemma repo_body_reads env up repo acc :
  reads (Route.repo_body env up repo acc) (repo_requests up repo)
    (λ out, out = acc ++ repo_records env up repo ∧ listable up repo).
Proof.
  unfold Route.repo_body, repo_requests.
  eapply (reads_bind _ _ [_] _); [apply reads_fetch_json|].
  intros pulls Hreply.
  assert (Hopen : open_pulls up (Repo.name repo) =
      match pulls with
      | JArray items => List.filter (λ p, negb (GitHubPullRequest.draft p)) items
      | _ => []
      end).
  { unfold open_pulls, pulls_of. rewrite Hreply. by destruct pulls. }
  unfold review_requests, repo_records, listable.
  rewrite <- !flat_map_single, Hopen.
  destruct pulls as [| |items]; simpl.
  - apply reads_ret. rewrite app_nil_r. auto.
  - apply reads_throw_bind.
  - destruct items as [|p items]; simpl.
    + apply reads_ret. rewrite app_nil_r. split; [done|].
      split; [|done]. right. unfold pulls_of. by rewrite Hreply.
    + apply reads_ret_bind. eapply reads_weaken.
      * apply reads_for_of. intros pr _ acc'. apply pr_body_reads.
      * intros out [-> HF]. split; [done|]. split; [|done].
        right. unfold pulls_of. by rewrite Hreply.
Qed.

Lemma allPRs_reads env up :
  reads (Route.allPRs env up) (expected_requests up)
    (λ out, out = Array_sort Route.compareFn (encountered env up)
            ∧ well_formed up).
Proof.
  unfold Route.allPRs, expected_requests.
  eapply (reads_bind _ _ [_] _); [apply reads_fetch_json|].
  intros repos Hreply.
  assert (Hrepos : repos_of up =
      match repos with JArray items => items | _ => [] end).
  { unfold repos_of. rewrite Hreply. by destruct repos. }
  unfold encountered, well_formed. rewrite Hrepos.
  destruct repos as [| |items]; simpl; [apply reads_throw_bind..|].
  apply reads_ret_bind.
  rewrite <- (app_nil_r (flat_map (repo_requests up) items)).
  eapply reads_bind.
  - apply reads_for_of. intros repo _ acc. apply repo_body_reads.
  - intros out [-> HF]. apply reads_ret. auto.
Qed.

Lemma Promise_all_run (prs : list PR.t) (w : World) :
  Promise_all (map (λ pr, setDoc ("prs", PR.id pr) (to_doc pr) true) prs) w
  = (Return tt,
     {| store := foldl upsert (store w) prs;
        requests := requests w;
        writes := writes w ++ map write_of prs |}).
Proof.
  revert w. induction prs as [|pr prs IH]; intros w; simpl.
  - destruct w; simpl. by rewrite app_nil_r.
  - unfold mbind, Async_bind, setDoc at 1. rewrite IH. simpl.
    by rewrite <- app_assoc.
Qed.

Lemma GET_run env up now w :
  Route.GET env up now w =
    match Route.allPRs env up w with
    | (Return allPRs, w1) =>
        (Return (ok_response (length allPRs)), persisted now allPRs w1)
    | (Throw e, w1) => (Return (error_response e), w1)
    end.
Proof.
  unfold Route.GET, try_catch, mbind at 1, Async_bind at 1.
  destruct (Route.allPRs env up w) as [[out|e] w1]; [|done].
  unfold mbind, Async_bind. rewrite Promise_all_run. done.
Qed.

(** ** The sort of step 3 *)

Section Sorting.
Context {A : Type} (compareFn : A → A → Z) (key : A → nat).
Hypothesis compareFn_key :
  ∀ a b, (compareFn a b <=? 0)%Z = (key a <=? key b)%nat.

Let ordered (a b : A) : Prop := key a ≤ key b.

Lemma sort_insert_Permutation x l :
  Permutation (sort_insert compareFn x l) (x :: l).
Proof.
  induction l as [|y l IH]; simpl; [done|].
  destruct (compareFn x y <=? 0)%Z; [done|].
  rewrite IH. apply perm_swap.
Qed.

Lemma Array_sort_Permutation l : Permutation (Array_sort compareFn l) l.
Proof.
  induction l as [|x l IH]; simpl; [done|].
  rewrite sort_insert_Permutation. by constructor.
Qed.

Lemma sort_insert_sorted x l :
  StronglySorted ordered l → StronglySorted ordered (sort_insert compareFn x l).
Proof.
  induction 1 as [|y l Hl IH Hy]; simpl.
  - repeat constructor.
  - destruct (compareFn x y <=? 0)%Z eqn:Hc.
    + rewrite compareFn_key in Hc. apply Nat.leb_le in Hc.
      constructor; [by constructor|].
      constructor; [done|].
      eapply Forall_impl; [exact Hy|]. unfold ordered. simpl. lia.
    + rewrite compareFn_key in Hc. apply Nat.leb_gt in Hc.
      constructor; [done|].
      rewrite sort_insert_Permutation. constructor; [|done].
      unfold ordered. lia.
Qed.

Lemma Array_sort_sorted l : StronglySorted ordered (Array_sort compareFn l).
Proof.
  induction l as [|x l IH]; simpl; [constructor|].
  by apply sort_insert_sorted.
Qed.

Lemma sort_insert_stable k x l :
  List.filter (λ a, key a =? k) (sort_insert compareFn x l)
  = List.filter (λ a, key a =? k) (x :: l).
Proof.
  induction l as [|y l IH]; [done|].
  cbn [sort_insert]. destruct (compareFn x y <=? 0)%Z eqn:Hc; [done|].
  rewrite compareFn_key in Hc. apply Nat.leb_gt in Hc.
  cbn [List.filter] in *. rewrite IH.
  destruct (key x =? k) eqn:Hx, (key y =? k) eqn:Hy; try done.
  apply Nat.eqb_eq in Hx, Hy. lia.
Qed.

Lemma Array_sort_stable k l :
  List.filter (λ a, key a =? k) (Array_sort compareFn l)
  = List.filter (λ a, key a =? k) l.
Proof.
  induction l as [|x l IH]; [done|].
  cbn [Array_sort foldr]. fold (Array_sort compareFn l).
  rewrite sort_insert_stable. cbn [List.filter]. by rewrite IH.
Qed.

End Sorting.

Lemma Array_sort_ext {A} (f g : A → A → Z) l :
  (∀ a b, f a b = g a b) → Array_sort f l = Array_sort g l.
Proof.
  intros Hfg. induction l as [|x l IH]; simpl; [done|].
  fold (Array_sort f l) (Array_sort g l). rewrite IH.
  generalize (Array_sort g l) as m. induction m as [|y m IHm]; simpl; [done|].
  by rewrite Hfg, IHm.
Qed.

Lemma js_or_zero x : js_or x 0 = x.
Proof. unfold js_or. destruct (x =? 0)%Z eqn:H; [|done]. lia. Qed.

Lemma Route_compareFn_key a b :
  (Route.compareFn a b <=? 0)%Z = (PR.approvals a <=? PR.approvals b)%nat.
Proof.
  unfold Route.compareFn. rewrite !js_or_zero.
  destruct (PR.approvals a <=? PR.approvals b)%nat eqn:H.
  - apply Nat.leb_le in H. apply Z.leb_le. lia.
  - apply Nat.leb_gt in H. apply Z.leb_gt. lia.
Qed.

(** ** Record ids

    A decimal numeral holds no dash, so the last dash of an id separates
    the repository name from the number. *)

Lemma pretty_N_go_dashless x s : dashless s → dashless (pretty_N_go x s).
Proof.
  revert s. induction (N.lt_wf_0 x) as [x _ IH]; intros s Hs.
  assert (x = 0 ∨ 0 < x)%N as [->|Hx] by lia.
  - by rewrite pretty_N_go_0.
  - rewrite pretty_N_go_step by done. apply IH.
    + by apply N.div_lt.
    + split; [|done]. unfold pretty_N_char. by repeat case_match.
Qed.

Lemma pretty_N_dashless (n : N) : dashless (pretty n).
Proof.
  unfold pretty, pretty_N. case_decide.
  - by split.
  - by apply pretty_N_go_dashless.
Qed.

Lemma append_nil_l (s : string) : "" +:+ s = s.
Proof. reflexivity. Qed.

Lemma append_cons_l c (s t : string) : String c s +:+ t = String c (s +:+ t).
Proof. reflexivity. Qed.

Ltac append_norm :=
  repeat (rewrite append_nil_l in * || rewrite append_cons_l in * ).

Lemma dash_not_dashless s d : ¬ dashless (s +:+ "-" +:+ d).
Proof. induction s as [|c s IH]; append_norm; intros [? ?]; auto. Qed.

Lemma dash_split s1 s2 d1 d2 :
  dashless d1 → dashless d2 →
  s1 +:+ "-" +:+ d1 = s2 +:+ "-" +:+ d2 → s1 = s2 ∧ d1 = d2.
Proof.
  intros H1 H2. revert s2.
  induction s1 as [|c1 s1 IH]; intros [|c2 s2] Heq; append_norm.
  - by simplify_eq.
  - injection Heq as _ ->. by destruct (dash_not_dashless s2 d2).
  - injection Heq as _ <-. by destruct (dash_not_dashless s1 d1).
  - injection Heq as -> Heq. destruct (IH _ Heq) as [-> ->]. done.
Qed.

Lemma id_inj (name1 name2 : string) (n1 n2 : N) :
  name1 +:+ "-" +:+ pretty n1 = name2 +:+ "-" +:+ pretty n2 →
  name1 = name2 ∧ n1 = n2.
Proof.
  intros Heq.
  apply dash_split in Heq as [? Hn]; auto using pretty_N_dashless.
  split; [done|]. by apply (inj pretty).
Qed.

Lemma record_id_inj env env' repo1 pr1 u1 c1 repo2 pr2 u2 c2 :
  PR.id (Route.record env repo1 pr1 u1 c1)
    = PR.id (Route.record env' repo2 pr2 u2 c2) →
  Repo.name repo1 = Repo.name repo2
  ∧ GitHubPullRequest.number pr1 = GitHubPullRequest.number pr2.
Proof. apply id_inj. Qed.

(** ** The write phase *)

Lemma setDoc_store_merge_lookup (r : string * string) (d : Doc) (s : Store)
    (r' : string * string) :
  setDoc_store r d true s !! r'
  = if decide (r = r') then Some (merge_doc d (s !! r)) else s !! r'.
Proof.
  unfold setDoc_store. case_decide as Hr.
  - subst r'. rewrite lookup_insert_eq. by destruct (s !! r).
  - by rewrite lookup_insert_ne.
Qed.

Lemma upsert_lookup_prs (s : Store) (pr : PR.t) (k : string) :
  upsert s pr !! ("prs", k) = doc_step k (s !! ("prs", k)) pr.
Proof.
  unfold upsert, doc_step. rewrite setDoc_store_merge_lookup.
  repeat case_decide; simplify_eq; done.
Qed.

Lemma upsert_lookup_other (s : Store) (pr : PR.t) (c k : string) :
  c ≠ "prs" → upsert s pr !! (c, k) = s !! (c, k).
Proof.
  intros Hc. unfold upsert. rewrite setDoc_store_merge_lookup.
  case_decide; simplify_eq; done.
Qed.

Lemma upserts_lookup_prs (prs : list PR.t) (s : Store) (k : string) :
  foldl upsert s prs !! ("prs", k) = foldl (doc_step k) (s !! ("prs", k)) prs.
Proof.
  revert s. induction prs as [|pr prs IH]; intros s; simpl; [done|].
  by rewrite IH, upsert_lookup_prs.
Qed.

Lemma upserts_lookup_other (prs : list PR.t) (s : Store) (c k : string) :
  c ≠ "prs" → foldl upsert s prs !! (c, k) = s !! (c, k).
Proof.
  intros Hc. revert s. induction prs as [|pr prs IH]; intros s; simpl; [done|].
  by rewrite IH, upsert_lookup_other.
Qed.

Lemma to_doc_id (pr : PR.t) : to_doc pr !! "id" = Some (VString (PR.id pr)).
Proof. unfold to_doc. by rewrite lookup_insert_eq. Qed.

Lemma to_doc_other (pr : PR.t) (f : string) : ¬ In f record_fields → to_doc pr !! f = None.
Proof.
  unfold record_fields. simpl. intros Hf. unfold to_doc.
  rewrite !lookup_insert_ne by (intros <-; tauto).
  apply lookup_singleton_ne. intros <-; tauto.
Qed.

(** Fields outside the record survive any number of upserts. *)
Lemma doc_steps_frame (k : string) (old : Doc) (prs : list PR.t) :
  ∃ d, foldl (doc_step k) (Some old) prs = Some d
       ∧ ∀ f, ¬ In f record_fields → d !! f = old !! f.
Proof.
  revert old. induction prs as [|pr prs IH]; intros old; simpl.
  - by exists old.
  - unfold doc_step at 2. case_decide; [|apply IH]. simpl.
    destruct (IH (to_doc pr ∪ old)) as (d & Hd & Hf).
    exists d. split; [done|]. intros f Hnf. rewrite Hf by done.
    rewrite lookup_union_r; [done|]. by apply to_doc_other.
Qed.

(** The last record written under [k] is contained in the document. *)
Lemma doc_steps_written (k : string) (o : option Doc) (prs : list PR.t) :
  In k (map PR.id prs) →
  ∃ pr d, In pr prs ∧ PR.id pr = k
          ∧ foldl (doc_step k) o prs = Some d ∧ to_doc pr ⊆ d.
Proof.
  induction prs as [|x prs IH] using rev_ind; [done|].
  rewrite map_app, in_app_iff, foldl_app. simpl. intros Hk.
  unfold doc_step at 1. case_decide as Hx.
  - exists x, (merge_doc (to_doc x) (foldl (doc_step k) o prs)).
    split; [apply in_app_iff; right; by left|].
    split; [done|]. split; [done|].
    unfold merge_doc. case_match; [apply map_union_subseteq_l|done].
  - destruct IH as (pr & d & Hin & Hid & Hd & Hsub); [tauto|].
    exists pr, d. split; [apply in_app_iff; by left|done].
Qed.

Lemma doc_steps_merge (k : string) (o : option Doc) (prs : list PR.t) :
  foldl (doc_step k) o prs
  = match foldl (doc_step k) None prs with
    | Some u => Some (merge_doc u o)
    | None => o
    end.
Proof.
  revert o. induction prs as [|x prs IH]; intros o; simpl; [done|].
  unfold doc_step at 2 4. case_decide; [|apply IH].
  rewrite IH. rewrite (IH (Some _)).
  destruct (foldl (doc_step k) None prs) as [u|]; [|done].
  destruct o as [old|]; simpl; [|done]. by rewrite (assoc_L (∪)).
Qed.

(** Replaying the same upserts changes nothing. *)
Lemma doc_steps_idemp (k : string) (o : option Doc) (prs : list PR.t) :
  foldl (doc_step k) (foldl (doc_step k) o prs) prs = foldl (doc_step k) o prs.
Proof.
  rewrite (doc_steps_merge k (foldl _ _ _)), (doc_steps_merge k o).
  destruct (foldl (doc_step k) None prs) as [u|]; [|done].
  destruct o as [old|]; simpl.
  - by rewrite (assoc_L (∪)), (idemp_L (∪)).
  - by rewrite (idemp_L (∪)).
Qed.

(** ** Runs of the fetch phase and of the handler *)

Lemma allPRs_returns env up w out w' :
  Route.allPRs env up w = (Return out, w') →
  out = Array_sort Route.compareFn (encountered env up)
  ∧ well_formed up
  ∧ w' = log w (expected_requests up).
Proof.
  destruct (allPRs_reads env up) as (o & t & Hrun & _ & Hret).
  rewrite Hrun. intros [= -> <-].
  destruct (Hret out eq_refl) as [-> [-> ?]]. done.
Qed.

Lemma allPRs_requests env up w o w' :
  Route.allPRs env up w = (o, w') →
  ∃ t, w' = log w t ∧ t `prefix_of` expected_requests up.
Proof.
  destruct (allPRs_reads env up) as (o' & t & Hrun & Hpre & _).
  rewrite Hrun. intros [= <- <-]. by exists t.
Qed.

Lemma GET_cases env up now w resp w' :
  Route.GET env up now w = (resp, w') →
  (∃ out, Route.allPRs env up w = (Return out, log w (expected_requests up))
          ∧ out = Array_sort Route.compareFn (encountered env up)
          ∧ well_formed up
          ∧ resp = Return (ok_response (length out))
          ∧ w' = persisted now out (log w (expected_requests up)))
  ∨ (∃ e t, Route.allPRs env up w = (Throw e, log w t)
            ∧ t `prefix_of` expected_requests up
            ∧ resp = Return (error_response e)
            ∧ w' = log w t).
Proof.
  rewrite GET_run.
  destruct (Route.allPRs env up w) as [[out|e] w1] eqn:Hrun; intros [= <- <-].
  - left. exists out.
    destruct (allPRs_returns _ _ _ _ _ Hrun) as (-> & Hwf & ->). done.
  - right. destruct (allPRs_requests _ _ _ _ _ Hrun) as (t & -> & Hpre).
    by exists e, t.
Qed.

Lemma encountered_origin env up r :
  In r (encountered env up) →
  ∃ repo pr,
    In repo (repos_of up)
    ∧ In pr (pulls_of up (Repo.name repo))
    ∧ GitHubPullRequest.draft pr = false
    ∧ r = record_of env up repo pr.
Proof.
  unfold encountered, repo_records. rewrite in_flat_map.
  intros (repo & Hrepo & Hr). apply in_map_iff in Hr as (pr & <- & Hpr).
  unfold open_pulls in Hpr. apply filter_In in Hpr as [Hpr Hd].
  exists repo, pr. by rewrite negb_true_iff in Hd.
Qed.

Lemma expected_review_origin up name number :
  In (PullReviews name number) (expected_requests up) →
  ∃ pr, In pr (pulls_of up name)
        ∧ GitHubPullRequest.draft pr = false
        ∧ GitHubPullRequest.number pr = number.
Proof.
  unfold expected_requests. intros [[=]|Hin].
  rewrite in_flat_map in Hin. destruct Hin as (repo & _ & [[=]|Hin]).
  unfold review_requests in Hin.
  apply in_map_iff in Hin as (pr & [= <- <-] & Hpr).
  unfold open_pulls in Hpr. apply filter_In in Hpr as [Hpr Hd].
  exists pr. by rewrite negb_true_iff in Hd.
Qed.

Lemma well_formed_calls up e :
  well_formed up → In e (expected_requests up) → call_failed up e = false.
Proof.
  intros [Hrepos Hlist]. unfold expected_requests.
  intros [<-|Hin]; [simpl; by rewrite Hrepos|].
  rewrite in_flat_map in Hin. destruct Hin as (repo & Hrepo & Hin).
  rewrite Forall_forall in Hlist. destruct (Hlist repo) as [Hpulls Hrev].
  { by apply list_elem_of_In. }
  destruct Hin as [<-|Hin]; [simpl; by destruct Hpulls as [->| ->]|].
  unfold review_requests in Hin. apply in_map_iff in Hin as (pr & <- & Hpr).
  rewrite Forall_forall in Hrev. destruct (Hrev pr) as [Hr _].
  { by apply list_elem_of_In. }
  simpl. by rewrite Hr.
Qed.

Lemma approved_count reviews :
  length (approved reviews)
  = count_occ string_dec (map GitHubReview.state reviews) "APPROVED".
Proof.
  induction reviews as [|r reviews IH]; [done|].
  unfold approved in *. cbn [List.filter map count_occ].
  destruct (String.eqb_spec (GitHubReview.state r) "APPROVED") as [->|Hne].
  - destruct (string_dec "APPROVED" "APPROVED"); [|done]. simpl. by rewrite IH.
  - destruct (string_dec (GitHubReview.state r) "APPROVED"); [done|]. apply IH.
Qed.

Lemma NoDup_map_In_inj {A B} (f : A → B) l x y :
  NoDup (map f l) → In x l → In y l → f x = f y → x = y.
Proof.
  induction l as [|a l IH]; simpl; [done|].
  intros Hnd [->|Hx] [->|Hy] Hf; inversion_clear Hnd as [|? ? Hnot Hnd'];
    try done.
  - destruct Hnot. apply list_elem_of_In. rewrite Hf. by apply in_map.
  - destruct Hnot. apply list_elem_of_In. rewrite <- Hf. by apply in_map.
  - by apply IH.
Qed.

Lemma store_log_init (s : Store) t : store (log (init s) t) = s.
Proof. reflexivity. Qed.

Lemma persisted_prs now out (w : World) (k : string) :
  store (persisted now out w) !! ("prs", k)
  = foldl (doc_step k) (store w !! ("prs", k)) out.
Proof.
  unfold persisted; simpl. rewrite setDoc_store_merge_lookup.
  case_decide; [done|]. apply upserts_lookup_prs.
Qed.

Lemma persisted_metadata now out (w : World) :
  store (persisted now out w) !! ("metadata", "system")
  = Some (merge_doc (metadata_doc now (length out))
            (store w !! ("metadata", "system"))).
Proof.
  unfold persisted; simpl. rewrite setDoc_store_merge_lookup.
  case_decide; [|done]. by rewrite upserts_lookup_other.
Qed.

Lemma metadata_count now n (o : option Doc) :
  merge_doc (metadata_doc now n) o !! "lastRefreshCount"
  = Some (VNumber (Z.of_nat n)).
Proof.
  assert (metadata_doc now n !! "lastRefreshCount" = Some (VNumber (Z.of_nat n)))
    as Hm by (unfold metadata_doc; by simplify_map_eq).
  destruct o as [old|]; simpl; [|done]. by apply lookup_union_Some_l.
Qed.

Lemma allPRs_outcome env up w1 w2 :
  (Route.allPRs env up w1).1 = (Route.allPRs env up w2).1.
Proof.
  destruct (allPRs_reads env up) as (o & t & Hrun & _). by rewrite !Hrun.
Qed.

Lemma to_doc_present (pr : PR.t) (f : string) :
  to_doc pr !! f = None → ¬ In f record_fields.
Proof.
  unfold record_fields. simpl. intros Hnone Hf.
  repeat (destruct Hf as [<-|Hf];
          [unfold to_doc in Hnone; by simplify_map_eq|]).
  done.
Qed.

Lemma compareFn_agree a b : Part000.compareFn a b = Route.compareFn a b.
Proof. unfold Part000.compareFn, Route.compareFn. by rewrite !js_or_zero. Qed.

Lemma allPRs_agree env up w : Part000.allPRs env up w = Route.allPRs env up w.
Proof.
  unfold Part000.allPRs, Route.allPRs, mbind, Async_bind.
  destruct (fetch_json OrgRepos (orgRepos up) w) as [[j|e] w1]; [|done].
  destruct (iterable j w1) as [[repos|e] w2]; [|done].
  change (Part000.repo_body env up) with (Route.repo_body env up).
  destruct (for_of repos (Route.repo_body env up) [] w2) as [[out|e] w3];
    [|done].
  unfold mret, Async_ret.
  by rewrite (Array_sort_ext Part000.compareFn Route.compareFn _ compareFn_agree).
Qed.

Lemma to_doc_fields (pr : PR.t) :
  to_doc pr !! "id" = Some (VString (PR.id pr))
  ∧ to_doc pr !! "title" = Some (VString (PR.title pr))
  ∧ to_doc pr !! "repo" = Some (VString (PR.repo pr))
  ∧ to_doc pr !! "author" = Some (VString (PR.author pr))
  ∧ to_doc pr !! "url" = Some (VString (PR.url pr))
  ∧ to_doc pr !! "updated_at" = Some (VString (PR.updated_at pr))
  ∧ to_doc pr !! "approvals" = Some (VNumber (Z.of_nat (PR.approvals pr))).
Proof. unfold to_doc. repeat split; by simplify_map_eq. Qed.

Lemma to_doc_carries (pr : PR.t) : carries (to_doc pr) pr.
Proof. exact (to_doc_fields pr). Qed.

Lemma carries_weaken (d d' : Doc) (pr : PR.t) :
  d ⊆ d' → carries d pr → carries d' pr.
Proof.
  intros Hsub (H1 & H2 & H3 & H4 & H5 & H6 & H7).
  repeat split; by eapply lookup_weaken.
Qed.

(** ** Properties of the refresh *)

(** C1: every record produced by a refresh stems from a non-draft pull
    request of a listed repository, and its [approvals] field is the
    number of entries of that pull request's review list whose [state] is
    exactly the string APPROVED; for the review list APPROVED, COMMENTED,
    APPROVED it is 2. *)
Theorem C1_approvals_count env up s out w' :
  Route.allPRs env up (init s) = (Return out, w') →
  ∀ r, In r out →
  ∃ repo pr reviews,
    In repo (repos_of up)
    ∧ In pr (pulls_of up (Repo.name repo))
    ∧ pullReviews up (Repo.name repo) (GitHubPullRequest.number pr)
        = Body (JArray reviews)
    ∧ PR.id r
        = Repo.name repo +:+ "-" +:+ pretty (GitHubPullRequest.number pr)
    ∧ PR.approvals r
        = count_occ string_dec (map GitHubReview.state reviews) "APPROVED"
    ∧ (map GitHubReview.state reviews = ["APPROVED"; "COMMENTED"; "APPROVED"]
       → PR.approvals r = 2).
Proof.
  intros Hrun r Hr.
  apply allPRs_returns in Hrun as (-> & [_ Hwf] & _).
  apply (Permutation_in _ (Array_sort_Permutation _ _)) in Hr.
  apply encountered_origin in Hr as (repo & pr & Hrepo & Hpr & Hd & ->).
  rewrite Forall_forall in Hwf. destruct (Hwf repo) as [_ Hrev].
  { by apply list_elem_of_In. }
  rewrite Forall_forall in Hrev. destruct (Hrev pr) as [Hreply _].
  { apply list_elem_of_In. unfold open_pulls. apply filter_In.
    by rewrite Hd. }
  exists repo, pr, (reviews_of up (Repo.name repo) (GitHubPullRequest.number pr)).
  split; [done|]. split; [done|]. split; [done|]. split; [done|]. split.
  - apply approved_count.
  - intros Hstates. simpl. rewrite approved_count, Hstates. reflexivity.
Qed.

Lemma C1_approvals_count_witness :
  Route.allPRs sample_env sample_up (init ∅)
    = (Return sample_records,
       {| store := ∅; requests := sample_requests; writes := [] |})
  ∧ In (sample_record "web" 7 2) sample_records
  ∧ ∃ repo pr reviews,
      In repo (repos_of sample_up)
      ∧ In pr (pulls_of sample_up (Repo.name repo))
      ∧ pullReviews sample_up (Repo.name repo) (GitHubPullRequest.number pr)
          = Body (JArray reviews)
      ∧ PR.id (sample_record "web" 7 2)
          = Repo.name repo +:+ "-" +:+ pretty (GitHubPullRequest.number pr)
      ∧ PR.approvals (sample_record "web" 7 2)
          = count_occ string_dec (map GitHubReview.state reviews) "APPROVED"
      ∧ (map GitHubReview.state reviews = ["APPROVED"; "COMMENTED"; "APPROVED"]
         → PR.approvals (sample_record "web" 7 2) = 2).
Proof.
  split; [vm_compute; reflexivity|]. split; [simpl; auto|].
  apply (C1_approvals_count sample_env sample_up ∅ sample_records
           {| store := ∅; requests := sample_requests; writes := [] |}).
  - vm_compute; reflexivity.
  - simpl; auto.
Defined.

(** C2: for a pull request whose [draft] flag is true (pull-request
    numbers being unique within the listing of its repository), a refresh
    issues no review-list request for it and writes no record under its
    id, whether the refresh succeeds or fails. *)
Theorem C2_drafts_skipped env up now s resp w' repo pr :
  Route.GET env up now (init s) = (resp, w') →
  In pr (pulls_of up (Repo.name repo)) →
  GitHubPullRequest.draft pr = true →
  NoDup (map GitHubPullRequest.number (pulls_of up (Repo.name repo))) →
  ¬ In (PullReviews (Repo.name repo) (GitHubPullRequest.number pr))
       (requests w')
  ∧ ∀ wr, In wr (writes w') →
      ref wr ≠ ("prs", Repo.name repo +:+ "-"
                         +:+ pretty (GitHubPullRequest.number pr)).
Proof.
  intros Hrun Hpr Hdraft Hnd.
  assert (Hreq : ¬ In (PullReviews (Repo.name repo) (GitHubPullRequest.number pr))
                      (expected_requests up)).
  { intros Hin. apply expected_review_origin in Hin as (pr' & Hpr' & Hd' & Hn).
    assert (pr' = pr) by (eapply NoDup_map_In_inj; eauto).
    congruence. }
  apply GET_cases in Hrun
    as [(out & _ & -> & _ & _ & ->)|(e & t & _ & Hpre & _ & ->)]; simpl.
  - split; [done|]. intros wr Hwr.
    apply in_app_iff in Hwr as [Hwr|[<-|[]]]; [|done].
    apply in_map_iff in Hwr as (r & <- & Hr). simpl. intros [= Hid].
    apply (Permutation_in _ (Array_sort_Permutation _ _)) in Hr.
    apply encountered_origin in Hr as (repo' & pr' & _ & Hpr' & Hd' & ->).
    apply id_inj in Hid as [Hname Hnum].
    rewrite Hname in Hpr'.
    assert (pr' = pr) by (eapply NoDup_map_In_inj; eauto).
    congruence.
  - split; [|done]. intros Hin. apply Hreq.
    destruct Hpre as [k ->]. apply in_app_iff. by left.
Qed.

Lemma C2_drafts_skipped_witness :
  Route.GET sample_env sample_up sample_now (init ∅)
    = (Return (ok_response 3), sample_world ∅)
  ∧ In (sample_pull 8 true) (pulls_of sample_up "web")
  ∧ GitHubPullRequest.draft (sample_pull 8 true) = true
  ∧ NoDup (map GitHubPullRequest.number (pulls_of sample_up "web"))
  ∧ ¬ In (PullReviews "web" 8) (requests (sample_world ∅))
  ∧ ∀ wr, In wr (writes (sample_world ∅)) → ref wr ≠ ("prs", "web-8").
Proof.
  assert (Hnd : NoDup (map GitHubPullRequest.number (pulls_of sample_up "web"))).
  { simpl. refine (bool_decide_unpack _ _). vm_compute. exact I. }
  split; [vm_compute; reflexivity|]. split; [simpl; auto|]. split; [done|].
  split; [exact Hnd|].
  apply (C2_drafts_skipped sample_env sample_up sample_now ∅
           (Return (ok_response 3)) (sample_world ∅)
           {| Repo.name := "web" |} (sample_pull 8 true)).
  - vm_compute; reflexivity.
  - simpl; auto.
  - reflexivity.
  - exact Hnd.
Defined.

(** C3: the record sequence a refresh produces is non-decreasing in
    [approvals]; it is a rearrangement of the records in encounter order
    (repository list order, then pull-request list order), and the
    records of each approval count keep their encounter order. *)
Theorem C3_sorted_stable env up s out w' :
  Route.allPRs env up (init s) = (Return out, w') →
  StronglySorted (λ a b, PR.approvals a ≤ PR.approvals b) out
  ∧ Permutation out (encountered env up)
  ∧ ∀ k, List.filter (λ r, PR.approvals r =? k) out
         = List.filter (λ r, PR.approvals r =? k) (encountered env up).
Proof.
  intros Hrun. apply allPRs_returns in Hrun as (-> & _ & _).
  split; [|split].
  - apply (Array_sort_sorted _ PR.approvals Route_compareFn_key).
  - apply Array_sort_Permutation.
  - intros k. apply (Array_sort_stable _ PR.approvals Route_compareFn_key).
Qed.

Lemma C3_sorted_stable_witness :
  Route.allPRs sample_env sample_up (init ∅)
    = (Return sample_records,
       {| store := ∅; requests := sample_requests; writes := [] |})
  ∧ StronglySorted (λ a b, PR.approvals a ≤ PR.approvals b) sample_records
  ∧ Permutation sample_records (encountered sample_env sample_up)
  ∧ ∀ k, List.filter (λ r, PR.approvals r =? k) sample_records
         = List.filter (λ r, PR.approvals r =? k)
             (encountered sample_env sample_up).
Proof.
  split; [vm_compute; reflexivity|].
  apply (C3_sorted_stable sample_env sample_up ∅ sample_records
           {| store := ∅; requests := sample_requests; writes := [] |}).
  vm_compute; reflexivity.
Defined.

(** C4: two records built for distinct (repository name, pull-request
    number) pairs have distinct ids. *)
Theorem C4_ids_distinct env repo1 pr1 u1 c1 repo2 pr2 u2 c2 :
  (Repo.name repo1, GitHubPullRequest.number pr1)
    ≠ (Repo.name repo2, GitHubPullRequest.number pr2) →
  PR.id (Route.record env repo1 pr1 u1 c1)
    ≠ PR.id (Route.record env repo2 pr2 u2 c2).
Proof.
  intros Hne Hid. apply record_id_inj in Hid as [Hname Hnum].
  apply Hne. by rewrite Hname, Hnum.
Qed.

Lemma C4_ids_distinct_witness :
  (Repo.name {| Repo.name := "web-1" |},
   GitHubPullRequest.number (sample_pull 2 false))
    ≠ (Repo.name {| Repo.name := "web" |},
       GitHubPullRequest.number (sample_pull 12 false))
  ∧ PR.id (Route.record sample_env {| Repo.name := "web-1" |}
             (sample_pull 2 false) {| GitHubUser.login := "octocat" |} 0)
    ≠ PR.id (Route.record sample_env {| Repo.name := "web" |}
               (sample_pull 12 false) {| GitHubUser.login := "octocat" |} 0).
Proof.
  assert (Hne : (Repo.name {| Repo.name := "web-1" |},
                 GitHubPullRequest.number (sample_pull 2 false))
                ≠ (Repo.name {| Repo.name := "web" |},
                   GitHubPullRequest.number (sample_pull 12 false))).
  { simpl. discriminate. }
  split; [exact Hne|].
  apply (C4_ids_distinct sample_env _ _ _ _ _ _ _ _ Hne).
Defined.

(** C5: when a source call issued by the refresh fails (transport error,
    body that is not JSON, error object instead of a listing), or the
    fetch phase throws for any other reason, the response has
    [success: false] and status 500, the store is as before and no write
    was issued. *)
Theorem C5_fetch_failure_no_writes env up now s resp w' :
  Route.GET env up now (init s) = (resp, w') →
  (∃ e, In e (requests w') ∧ call_failed up e = true)
  ∨ (∃ e w1, Route.allPRs env up (init s) = (Throw e, w1)) →
  (∃ e, resp = Return {| status := 500;
                         body := {| success := false; count := None;
                                    error := Some e |} |})
  ∧ store w' = s
  ∧ writes w' = [].
Proof.
  intros Hrun Hfail.
  apply GET_cases in Hrun
    as [(out & Hall & _ & Hwf & _ & ->)|(e & t & _ & _ & -> & ->)].
  - exfalso. destruct Hfail as [(e & Hin & Hf)|(e & w1 & Hthrow)].
    + simpl in Hin. rewrite (well_formed_calls up e Hwf Hin) in Hf. done.
    + rewrite Hall in Hthrow. done.
  - split; [by exists e|done].
Qed.

Lemma C5_fetch_failure_no_writes_witness :
  Route.GET sample_env failing_up sample_now (init ∅)
    = (Return (error_response TypeError_fetch_failed),
       {| store := ∅; requests := [OrgRepos]; writes := [] |})
  ∧ ((∃ e, In e [OrgRepos] ∧ call_failed failing_up e = true)
     ∨ (∃ e w1, Route.allPRs sample_env failing_up (init ∅) = (Throw e, w1)))
  ∧ (∃ e, Return (error_response TypeError_fetch_failed)
          = Return {| status := 500;
                      body := {| success := false; count := None;
                                 error := Some e |} |})
  ∧ store {| store := ∅; requests := [OrgRepos]; writes := [] |} = ∅
  ∧ writes {| store := ∅; requests := [OrgRepos]; writes := [] |} = [].
Proof.
  assert (Hfail : (∃ e, In e [OrgRepos] ∧ call_failed failing_up e = true)
     ∨ (∃ e w1, Route.allPRs sample_env failing_up (init ∅) = (Throw e, w1))).
  { left. exists OrgRepos. split; [by left|reflexivity]. }
  split; [reflexivity|]. split; [exact Hfail|].
  apply (C5_fetch_failure_no_writes sample_env failing_up sample_now ∅
           (Return (error_response TypeError_fetch_failed))
           {| store := ∅; requests := [OrgRepos]; writes := [] |}).
  - reflexivity.
  - exact Hfail.
Defined.

(** C6: when the organization has no repositories the refresh answers
    [success: true], [count: 0] with status 200; its only write is the
    metadata document, the record collection is as before, and the
    metadata document holds [lastRefreshCount: 0]. *)
Theorem C6_no_repositories env up now s :
  orgRepos up = Body (JArray []) →
  ∃ w',
    Route.GET env up now (init s)
      = (Return {| status := 200;
                   body := {| success := true; count := Some 0;
                              error := None |} |}, w')
    ∧ writes w' = [metadata_write now 0]
    ∧ (∀ k : string, store w' !! ("prs", k) = s !! ("prs", k))
    ∧ ∃ d : Doc, store w' !! ("metadata", "system") = Some d
                 ∧ d !! "lastRefreshCount" = Some (VNumber 0).
Proof.
  intros Hrepos.
  assert (Hall : Route.allPRs env up (init s) = (Return [], log (init s) [OrgRepos])).
  { unfold Route.allPRs, mbind, Async_bind, fetch_json. by rewrite Hrepos. }
  exists (persisted now [] (log (init s) [OrgRepos])).
  split; [by rewrite GET_run, Hall|]. split; [done|]. split.
  - intros k. by rewrite persisted_prs.
  - eexists. split; [apply persisted_metadata|]. apply (metadata_count now 0).
Qed.

Lemma C6_no_repositories_witness :
  orgRepos empty_up = Body (JArray [])
  ∧ ∃ w',
      Route.GET sample_env empty_up sample_now (init stale_store)
        = (Return {| status := 200;
                     body := {| success := true; count := Some 0;
                                error := None |} |}, w')
      ∧ writes w' = [metadata_write sample_now 0]
      ∧ (∀ k : string, store w' !! ("prs", k) = stale_store !! ("prs", k))
      ∧ ∃ d : Doc, store w' !! ("metadata", "system") = Some d
                   ∧ d !! "lastRefreshCount" = Some (VNumber 0).
Proof.
  split; [reflexivity|].
  apply (C6_no_repositories sample_env empty_up sample_now stale_store).
  reflexivity.
Defined.

(** C7: a second refresh right after a first one, against the same
    source, gives the same response and the same records and leaves the
    record collection as the first refresh left it; when the refreshes
    succeed, the metadata document holds after each of them a
    [lastRefreshCount] equal to the number of records. *)
Theorem C7_refresh_idempotent env up now1 now2 s resp1 w1 resp2 w2 :
  Route.GET env up now1 (init s) = (resp1, w1) →
  Route.GET env up now2 (init (store w1)) = (resp2, w2) →
  resp2 = resp1
  ∧ (Route.allPRs env up (init (store w1))).1 = (Route.allPRs env up (init s)).1
  ∧ (∀ k : string, store w2 !! ("prs", k) = store w1 !! ("prs", k))
  ∧ ∀ out, (Route.allPRs env up (init s)).1 = Return out →
      resp1 = Return (ok_response (length out))
      ∧ (∃ d1 : Doc, store w1 !! ("metadata", "system") = Some d1
           ∧ d1 !! "lastRefreshCount" = Some (VNumber (Z.of_nat (length out))))
      ∧ (∃ d2 : Doc, store w2 !! ("metadata", "system") = Some d2
           ∧ d2 !! "lastRefreshCount" = Some (VNumber (Z.of_nat (length out)))).
Proof.
  intros Hrun1 Hrun2.
  pose proof (allPRs_outcome env up (init (store w1)) (init s)) as Hsame.
  split; [|split; [exact Hsame|]].
  - apply GET_cases in Hrun1 as [(o1 & H1 & _ & _ & -> & _)|(e1 & t1 & H1 & _ & -> & _)];
      apply GET_cases in Hrun2 as [(o2 & H2 & _ & _ & -> & _)|(e2 & t2 & H2 & _ & -> & _)];
      rewrite H1, H2 in Hsame; simpl in Hsame; by simplify_eq.
  - apply GET_cases in Hrun1 as [(o1 & H1 & _ & _ & -> & ->)|(e1 & t1 & H1 & _ & -> & ->)];
      apply GET_cases in Hrun2 as [(o2 & H2 & _ & _ & -> & ->)|(e2 & t2 & H2 & _ & -> & ->)];
      rewrite H1, H2 in Hsame; simpl in Hsame; simplify_eq.
    + split.
      * intros k. rewrite persisted_prs, store_log_init, !persisted_prs,
          !store_log_init.
        apply doc_steps_idemp.
      * intros out Hout. rewrite H1 in Hout. cbn [fst] in Hout.
        injection Hout as <-. split; [done|]. split.
        -- eexists. split; [apply persisted_metadata|apply metadata_count].
        -- eexists. split; [apply persisted_metadata|apply metadata_count].
    + split; [done|]. intros out. rewrite H1. done.
Qed.

Lemma C7_refresh_idempotent_witness :
  Route.GET sample_env sample_up sample_now (init stale_store)
    = (Return (ok_response 3), sample_world stale_store)
  ∧ Route.GET sample_env sample_up later_now
      (init (store (sample_world stale_store)))
    = (Return (ok_response 3), later_world)
  ∧ Return (ok_response 3) = Return (ok_response 3)
  ∧ (Route.allPRs sample_env sample_up
       (init (store (sample_world stale_store)))).1
    = (Route.allPRs sample_env sample_up (init stale_store)).1
  ∧ (∀ k : string, store later_world !! ("prs", k)
                   = store (sample_world stale_store) !! ("prs", k))
  ∧ ∀ out,
      (Route.allPRs sample_env sample_up (init stale_store)).1 = Return out →
      Return (ok_response 3) = Return (ok_response (length out))
      ∧ (∃ d1 : Doc,
           store (sample_world stale_store) !! ("metadata", "system") = Some d1
           ∧ d1 !! "lastRefreshCount" = Some (VNumber (Z.of_nat (length out))))
      ∧ (∃ d2 : Doc,
           store later_world !! ("metadata", "system") = Some d2
           ∧ d2 !! "lastRefreshCount" = Some (VNumber (Z.of_nat (length out)))).
Proof.
  split; [vm_compute; reflexivity|]. split; [vm_compute; reflexivity|].
  apply (C7_refresh_idempotent sample_env sample_up sample_now later_now
           stale_store (Return (ok_response 3)) (sample_world stale_store)
           (Return (ok_response 3)) later_world).
  - vm_compute; reflexivity.
  - vm_compute; reflexivity.
Defined.

(** C8: every record write of a refresh is a merge write; afterwards the
    document under a written id has the seven fields of a record of this
    refresh with that id (the record last written under it), with the
    values of that record, whatever the old document held there; and
    every other field of the old document is unchanged. *)
Theorem C8_merge_upsert env up now s resp w' wr (k : string) (old : Doc) :
  Route.GET env up now (init s) = (resp, w') →
  In wr (writes w') → ref wr = ("prs", k) →
  s !! ("prs", k) = Some old →
  merge wr = true
  ∧ ∃ pr wr' (d : Doc),
      In pr (encountered env up) ∧ PR.id pr = k
      ∧ In wr' (writes w') ∧ ref wr' = ("prs", k)
      ∧ carries (data wr') pr
      ∧ store w' !! ("prs", k) = Some d
      ∧ carries d pr
      ∧ (∀ f, ¬ In f ["id"; "title"; "repo"; "author"; "url"; "updated_at";
                     "approvals"] → d !! f = old !! f)
      ∧ (∀ f v, data wr' !! f = Some v → d !! f = Some v)
      ∧ (∀ f, data wr' !! f = None → d !! f = old !! f).
Proof.
  intros Hrun Hwr Href Hold.
  apply GET_cases in Hrun as [(out & _ & Hout & _ & _ & ->)|(e & t & _ & _ & _ & ->)];
    [|done].
  simpl in Hwr. apply in_app_iff in Hwr as [Hwr|[<-|[]]]; [|done].
  apply in_map_iff in Hwr as (r & <- & Hr). simpl in Href.
  injection Href as Hid. split; [done|].
  destruct (doc_steps_written k (Some old) out) as (pr & d & Hpr & Hk & Hd & Hsub).
  { rewrite <- Hid. by apply in_map. }
  destruct (doc_steps_frame k old out) as (d' & Hd' & Hframe).
  rewrite Hd in Hd'. injection Hd' as <-.
  exists pr, (write_of pr), d.
  split; [|split; [done|split; [|split; [|split; [|split; [|split; [|split; [|split]]]]]]]].
  - rewrite Hout in Hpr.
    exact (Permutation_in _ (Array_sort_Permutation _ _) Hpr).
  - simpl. apply in_app_iff. left. by apply in_map.
  - simpl. by rewrite Hk.
  - apply to_doc_carries.
  - rewrite persisted_prs. simpl. by rewrite Hold.
  - apply (carries_weaken (to_doc pr)); [done|apply to_doc_carries].
  - exact Hframe.
  - intros f v Hf. simpl in Hf.
    by apply (lookup_weaken _ _ _ _ Hf).
  - intros f Hf. simpl in Hf. apply Hframe. by apply (to_doc_present pr).
Qed.

Lemma C8_merge_upsert_witness :
  Route.GET sample_env sample_up sample_now (init stale_store)
    = (Return (ok_response 3), sample_world stale_store)
  ∧ In (write_of (sample_record "web" 7 2)) (writes (sample_world stale_store))
  ∧ ref (write_of (sample_record "web" 7 2)) = ("prs", "web-7")
  ∧ stale_store !! ("prs", "web-7") = Some stale_doc
  ∧ merge (write_of (sample_record "web" 7 2)) = true
  ∧ ∃ pr wr' (d : Doc),
      In pr (encountered sample_env sample_up) ∧ PR.id pr = "web-7"
      ∧ In wr' (writes (sample_world stale_store))
      ∧ ref wr' = ("prs", "web-7")
      ∧ carries (data wr') pr
      ∧ store (sample_world stale_store) !! ("prs", "web-7") = Some d
      ∧ carries d pr
      ∧ (∀ f, ¬ In f ["id"; "title"; "repo"; "author"; "url"; "updated_at";
                     "approvals"] → d !! f = stale_doc !! f)
      ∧ (∀ f v, data wr' !! f = Some v → d !! f = Some v)
      ∧ (∀ f, data wr' !! f = None → d !! f = stale_doc !! f).
Proof.
  assert (Hin : In (write_of (sample_record "web" 7 2))
                   (writes (sample_world stale_store))).
  { simpl. auto. }
  assert (Hold : stale_store !! ("prs", "web-7") = Some stale_doc).
  { vm_compute. reflexivity. }
  split; [vm_compute; reflexivity|]. split; [exact Hin|]. split; [reflexivity|].
  split; [exact Hold|].
  apply (C8_merge_upsert sample_env sample_up sample_now stale_store
           (Return (ok_response 3)) (sample_world stale_store)
           (write_of (sample_record "web" 7 2)) "web-7" stale_doc).
  - vm_compute; reflexivity.
  - exact Hin.
  - reflexivity.
  - exact Hold.
Defined.

(** C9: the typed handler and the untyped variant are the same function
    of the configuration, the source, the clock and the world: same
    response, same store, same requests, same writes. *)
Theorem C9_handlers_agree env up now w :
  Part000.GET env up now w = Route.GET env up now w.
Proof.
  unfold Part000.GET, Route.GET, try_catch, mbind at 1 4, Async_bind at 1 4.
  by rewrite allPRs_agree.
Qed.

(** C10: every document a refresh writes to the record collection is
    written under a key equal to its own [id] field, and the document
    stored under that key afterwards has that [id] field. *)
Theorem C10_key_is_id env up now s resp w' wr :
  Route.GET env up now (init s) = (resp, w') →
  In wr (writes w') → (ref wr).1 = "prs" →
  data wr !! "id" = Some (VString (ref wr).2)
  ∧ ∃ d : Doc, store w' !! ref wr = Some d
               ∧ d !! "id" = Some (VString (ref wr).2).
Proof.
  intros Hrun Hwr Href.
  apply GET_cases in Hrun as [(out & _ & _ & _ & _ & ->)|(e & t & _ & _ & _ & ->)];
    [|done].
  simpl in Hwr. apply in_app_iff in Hwr as [Hwr|[<-|[]]]; [|done].
  apply in_map_iff in Hwr as (r & <- & Hr).
  unfold write_of; cbn [ref data fst snd].
  split; [apply to_doc_id|].
  destruct (doc_steps_written (PR.id r) (s !! ("prs", PR.id r)) out)
    as (pr & d & Hpr & Hk & Hd & Hsub).
  { by apply in_map. }
  exists d. split.
  - by rewrite persisted_prs.
  - rewrite <- Hk. apply (lookup_weaken _ _ _ _ (to_doc_id pr) Hsub).
Qed.

Lemma C10_key_is_id_witness :
  Route.GET sample_env sample_up sample_now (init stale_store)
    = (Return (ok_response 3), sample_world stale_store)
  ∧ In (write_of (sample_record "api" 1 0)) (writes (sample_world stale_store))
  ∧ (ref (write_of (sample_record "api" 1 0))).1 = "prs"
  ∧ data (write_of (sample_record "api" 1 0)) !! "id"
    = Some (VString (ref (write_of (sample_record "api" 1 0))).2)
  ∧ ∃ d : Doc,
      store (sample_world stale_store) !! ref (write_of (sample_record "api" 1 0))
        = Some d
      ∧ d !! "id" = Some (VString (ref (write_of (sample_record "api" 1 0))).2).
Proof.
  assert (Hin : In (write_of (sample_record "api" 1 0))
                   (writes (sample_world stale_store))).
  { simpl. auto. }
  split; [vm_compute; reflexivity|]. split; [exact Hin|]. split; [reflexivity|].
  apply (C10_key_is_id sample_env sample_up sample_now stale_store
           (Return (ok_response 3)) (sample_world stale_store)
           (write_of (sample_record "api" 1 0))).
  - vm_compute; reflexivity.
  - exact Hin.
  - reflexivity.
Defined.

(** * Further properties of the refresh handler *)

(** ** When the fetch phase returns *)

Lemma for_of_returns {A S} (body : A → list S → Async (list S))
    (tr : A → list Endpoint) (f : A → list S) (xs : list A) :
  (∀ x, In x xs → ∀ acc w,
     body x acc w = (Return (acc ++ f x), log w (tr x))) →
  ∀ acc w, for_of xs body acc w
           = (Return (acc ++ flat_map f xs), log w (flat_map tr xs)).
Proof.
  induction xs as [|x xs IH]; intros Hbody acc w; simpl.
  - by rewrite app_nil_r, log_nil.
  - unfold mbind, Async_bind. rewrite Hbody by (by left).
    rewrite IH by (intros y Hy; apply Hbody; by right).
    by rewrite log_app, app_assoc.
Qed.

Lemma fetch_json_body {A} (e : Endpoint) (j : Json A) (w : World) :
  fetch_json e (Body j) w = (Return j, log w [e]).
Proof. reflexivity. Qed.

Lemma pr_body_returns env up repo pr acc w :
  reviewable up repo pr →
  Route.pr_body env up repo pr acc w
  = (Return (acc ++ [record_of env up repo pr]),
     log w [PullReviews (Repo.name repo) (GitHubPullRequest.number pr)]).
Proof.
  intros [Hreply [u Hu]].
  unfold Route.pr_body, mbind, Async_bind, record_of.
  rewrite Hreply, fetch_json_body, Hu. reflexivity.
Qed.

Lemma repo_body_returns env up repo acc w :
  listable up repo →
  Route.repo_body env up repo acc w
  = (Return (acc ++ repo_records env up repo), log w (repo_requests up repo)).
Proof.
  intros [Hreply Hrev].
  unfold Route.repo_body, mbind at 1, Async_bind at 1.
  unfold repo_requests, review_requests, repo_records, open_pulls in *.
  rewrite <- !flat_map_single.
  destruct Hreply as [Hnull|Harr].
  - unfold pulls_of. rewrite Hnull, fetch_json_body. simpl.
    by rewrite app_nil_r.
  - rewrite Harr, fetch_json_body.
    destruct (pulls_of up (Repo.name repo)) as [|p l] eqn:Hl.
    + simpl. by rewrite app_nil_r.
    + cbn [js_not length_is_zero length Nat.eqb orb Array_filter].
      change (mret ?x ≫= ?k) with (k x). cbv beta.
      rewrite (for_of_returns _
        (λ pr, [PullReviews (Repo.name repo) (GitHubPullRequest.number pr)])
        (λ pr, [record_of env up repo pr])).
      * by rewrite log_app.
      * intros pr Hpr acc' w'. apply pr_body_returns.
        rewrite Forall_forall in Hrev. apply Hrev. by apply list_elem_of_In.
Qed.

Lemma allPRs_well_formed env up w :
  well_formed up →
  Route.allPRs env up w
  = (Return (Array_sort Route.compareFn (encountered env up)),
     log w (expected_requests up)).
Proof.
  intros [Hrepos Hlist].
  unfold Route.allPRs, mbind, Async_bind. rewrite Hrepos, fetch_json_body.
  cbn [iterable]. unfold mret at 1, Async_ret at 1.
  rewrite (for_of_returns _ (repo_requests up) (repo_records env up)).
  - unfold mret, Async_ret. by rewrite log_app.
  - intros repo Hrepo acc w'. apply repo_body_returns.
    rewrite Forall_forall in Hlist. apply Hlist. by apply list_elem_of_In.
Qed.

Lemma expected_requests_length env up :
  length (expected_requests up)
  = 1 + length (repos_of up) + length (encountered env up).
Proof.
  unfold expected_requests, encountered. simpl. f_equal.
  induction (repos_of up) as [|repo l IH]; simpl; [done|].
  rewrite !length_app, IH.
  unfold review_requests, repo_records. rewrite !length_map. lia.
Qed.

Lemma ok_response_inv n resp e :
  resp = Return (ok_response n) → resp = Return (error_response e) → False.
Proof. intros -> [=]. Qed.

(** X1: when the source is well formed (the repository listing is an
    array, the pulls reply of each listed repository is [null] or an
    array, and each of its non-draft pull requests has an array of
    reviews and a user), steps 1 to 3 of the handler complete, from every
    world: [allPRs] is then the sorted list of the records in encounter
    order, one per non-draft pull request listed, and the requests issued
    are those of the listings, in order.  Whether the handler then
    answers [success: true] is up to the writes. *)
Theorem X1_well_formed_fetch_completes env up w :
  well_formed up →
  Route.allPRs env up w
    = (Return (Array_sort Route.compareFn (encountered env up)),
       log w (expected_requests up))
  ∧ length (Array_sort Route.compareFn (encountered env up))
    = length (flat_map (λ repo,
                          List.filter (λ p, negb (GitHubPullRequest.draft p))
                            (pulls_of up (Repo.name repo)))
                (repos_of up)).
Proof.
  intros Hwf. split; [by apply allPRs_well_formed|].
  rewrite (Permutation_length (Array_sort_Permutation _ _)).
  unfold encountered, repo_records, open_pulls.
  induction (repos_of up) as [|repo l IH]; simpl; [done|].
  by rewrite !length_app, IH, length_map.
Qed.

Lemma sample_up_well_formed : well_formed sample_up.
Proof.
  assert (Hrev : ∀ name n,
            reviewable sample_up {| Repo.name := name |} (sample_pull n false)).
  { intros name n. split; [|by eexists]. unfold reviews_of. simpl.
    by destruct (n =? 7)%N. }
  split; [reflexivity|].
  apply Forall_cons. split; [|apply Forall_cons; split; [|by apply Forall_nil]].
  - split; [right; reflexivity|].
    apply Forall_cons. split; [apply Hrev|].
    apply Forall_cons. split; [apply Hrev|by apply Forall_nil].
  - split; [right; reflexivity|].
    apply Forall_cons. split; [apply Hrev|by apply Forall_nil].
Defined.

Lemma X1_well_formed_fetch_completes_witness :
  well_formed sample_up
  ∧ Route.allPRs sample_env sample_up (init stale_store)
    = (Return (Array_sort Route.compareFn (encountered sample_env sample_up)),
       log (init stale_store) (expected_requests sample_up))
  ∧ length (Array_sort Route.compareFn (encountered sample_env sample_up))
    = length (flat_map (λ repo,
                          List.filter (λ p, negb (GitHubPullRequest.draft p))
                            (pulls_of sample_up (Repo.name repo)))
                (repos_of sample_up)).
Proof.
  split; [exact sample_up_well_formed|].
  apply (X1_well_formed_fetch_completes sample_env sample_up (init stale_store)
           sample_up_well_formed).
Defined.

(** X2: a refresh that succeeds has issued its requests one after the
    other in this order: the repository listing, then for each repository
    in listing order its pulls listing followed by the reviews listing of
    each of its non-draft pull requests in listing order; that is one
    request, plus one per repository, plus one per record. *)
Theorem X2_request_sequence env up now s n w' :
  Route.GET env up now (init s) = (Return (ok_response n), w') →
  requests w'
  = OrgRepos ::
    flat_map
      (λ repo,
         RepoPulls (Repo.name repo) ::
         map (λ pr, PullReviews (Repo.name repo) (GitHubPullRequest.number pr))
           (List.filter (λ p, negb (GitHubPullRequest.draft p))
              (pulls_of up (Repo.name repo))))
      (repos_of up)
  ∧ length (requests w') = 1 + length (repos_of up) + n.
Proof.
  intros Hrun.
  apply GET_cases in Hrun
    as [(out & _ & -> & _ & [= ->] & ->)|(e & t & _ & _ & [=] & _)].
  cbn [persisted requests log init app]. split; [done|].
  rewrite (expected_requests_length env).
  by rewrite (Permutation_length (Array_sort_Permutation _ _)).
Qed.

Lemma X2_request_sequence_witness :
  Route.GET sample_env sample_up sample_now (init ∅)
    = (Return (ok_response 3), sample_world ∅)
  ∧ requests (sample_world ∅)
    = OrgRepos ::
      flat_map
        (λ repo,
           RepoPulls (Repo.name repo) ::
           map (λ pr, PullReviews (Repo.name repo) (GitHubPullRequest.number pr))
             (List.filter (λ p, negb (GitHubPullRequest.draft p))
                (pulls_of sample_up (Repo.name repo))))
        (repos_of sample_up)
  ∧ length (requests (sample_world ∅)) = 1 + length (repos_of sample_up) + 3.
Proof.
  split; [reflexivity|].
  apply (X2_request_sequence sample_env sample_up sample_now ∅ 3 (sample_world ∅)).
  reflexivity.
Defined.

Lemma upserts_lookup_unwritten (out : list PR.t) (s : Store) (p : string * string) :
  (∀ r, In r out → ("prs", PR.id r) ≠ p) → foldl upsert s out !! p = s !! p.
Proof.
  revert s. induction out as [|r out IH]; intros s Hp; simpl; [done|].
  rewrite IH by (intros r' Hr'; apply Hp; by right).
  unfold upsert. rewrite setDoc_store_merge_lookup.
  case_decide as Heq; [|done]. destruct (Hp r); [by left|done].
Qed.

Lemma setDoc_store_keeps (r : string * string) (d : Doc) (m : bool) (s : Store)
    (p : string * string) :
  is_Some (s !! p) → is_Some (setDoc_store r d m s !! p).
Proof.
  intros Hp. unfold setDoc_store. destruct (decide (r = p)) as [->|Hne].
  - rewrite lookup_insert_eq. by eexists.
  - by rewrite lookup_insert_ne.
Qed.

Lemma upserts_keep (out : list PR.t) (s : Store) (p : string * string) :
  is_Some (s !! p) → is_Some (foldl upsert s out !! p).
Proof.
  revert s. induction out as [|r out IH]; intros s Hp; simpl; [done|].
  apply IH. by apply setDoc_store_keeps.
Qed.

(** X4: a refresh changes no document other than those its writes name,
    and deletes none: a path that no write of the run names holds what it
    held before, and every path that held a document still holds one. *)
Theorem X4_other_documents_untouched env up now s resp w' :
  Route.GET env up now (init s) = (resp, w') →
  (∀ p : string * string,
     (∀ wr, In wr (writes w') → ref wr ≠ p) → store w' !! p = s !! p)
  ∧ (∀ p : string * string, is_Some (s !! p) → is_Some (store w' !! p)).
Proof.
  intros Hrun.
  apply GET_cases in Hrun
    as [(out & _ & _ & _ & _ & ->)|(e & t & _ & _ & _ & ->)]; [|done].
  cbn [persisted store writes log init app]. split.
  - intros p Hp. rewrite setDoc_store_merge_lookup.
    case_decide as Hmeta.
    + destruct (Hp (metadata_write now (length out))); [|by rewrite <- Hmeta].
      apply in_app_iff. right. by left.
    + apply upserts_lookup_unwritten. intros r Hr.
      apply (Hp (write_of r)). apply in_app_iff. left. by apply in_map.
  - intros p Hp. by apply setDoc_store_keeps, upserts_keep.
Qed.

Lemma X4_other_documents_untouched_witness :
  Route.GET sample_env sample_up sample_now (init stale_store)
    = (Return (ok_response 3), sample_world stale_store)
  ∧ (∀ p : string * string,
       (∀ wr, In wr (writes (sample_world stale_store)) → ref wr ≠ p) →
       store (sample_world stale_store) !! p = stale_store !! p)
  ∧ (∀ p : string * string,
       is_Some (stale_store !! p) →
       is_Some (store (sample_world stale_store) !! p)).
Proof.
  split; [reflexivity|].
  apply (X4_other_documents_untouched sample_env sample_up sample_now
           stale_store (Return (ok_response 3)) (sample_world stale_store)).
  reflexivity.
Defined.

(** X5: the metadata write of a successful refresh is a merge too: the
    metadata document then holds the refresh time and the record count,
    and every other field the old metadata document had is still there
    with its old value. *)
Theorem X5_metadata_merged env up now s n w' :
  Route.GET env up now (init s) = (Return (ok_response n), w') →
  ∃ d : Doc,
    store w' !! ("metadata", "system") = Some d
    ∧ d !! "lastRefresh" = Some (VString now)
    ∧ d !! "lastRefreshCount" = Some (VNumber (Z.of_nat n))
    ∧ ∀ f : string, f ≠ "lastRefresh" → f ≠ "lastRefreshCount" →
        d !! f = (s !! ("metadata", "system")) ≫= (λ old : Doc, old !! f).
Proof.
  intros Hrun.
  apply GET_cases in Hrun
    as [(out & _ & _ & _ & [= ->] & ->)|(e & t & _ & _ & [=] & _)].
  eexists. split; [apply persisted_metadata|]. rewrite store_log_init.
  split; [|split; [apply metadata_count|]].
  - destruct (s !! ("metadata", "system")) as [old|]; simpl.
    + apply lookup_union_Some_l. unfold metadata_doc. by simplify_map_eq.
    + unfold metadata_doc. by simplify_map_eq.
  - intros f Hf1 Hf2.
    assert (Hnone : metadata_doc now (length out) !! f = None).
    { unfold metadata_doc. rewrite lookup_insert_ne by done.
      by apply lookup_singleton_ne. }
    destruct (s !! ("metadata", "system")) as [old|]; simpl; [|done].
    by rewrite lookup_union_r.
Qed.

Lemma X5_metadata_merged_witness :
  Route.GET sample_env sample_up sample_now (init stale_store)
    = (Return (ok_response 3), sample_world stale_store)
  ∧ ∃ d : Doc,
      store (sample_world stale_store) !! ("metadata", "system") = Some d
      ∧ d !! "lastRefresh" = Some (VString sample_now)
      ∧ d !! "lastRefreshCount" = Some (VNumber (Z.of_nat 3))
      ∧ ∀ f : string, f ≠ "lastRefresh" → f ≠ "lastRefreshCount" →
          d !! f = (stale_store !! ("metadata", "system"))
                     ≫= (λ old : Doc, old !! f).
Proof.
  split; [reflexivity|].
  apply (X5_metadata_merged sample_env sample_up sample_now stale_store 3
           (sample_world stale_store)).
  reflexivity.
Defined.

(** X6: the handler never throws: it always answers, and with one of
    two shapes.  Either status 200 with [success: true], a count and no
    error; this answer comes only after one write per record of the
    refresh, in the sorted order of [allPRs], followed by the metadata
    write, and the count is the number of those records.  Or status 500
    with [success: false], an error and no count. *)
Theorem X6_response_shape env up now s :
  ∃ resp w',
    Route.GET env up now (init s) = (Return resp, w')
    ∧ ((resp = {| status := 200;
                  body := {| success := true;
                             count := Some (length (encountered env up));
                             error := None |} |}
        ∧ writes w'
          = map write_of (Array_sort Route.compareFn (encountered env up))
              ++ [metadata_write now (length (encountered env up))])
       ∨ (∃ e,
            resp = {| status := 500;
                      body := {| success := false; count := None;
                                 error := Some e |} |})).
Proof.
  destruct (Route.GET env up now (init s)) as [resp w'] eqn:Hrun.
  apply GET_cases in Hrun
    as [(out & _ & -> & _ & -> & ->)|(e & t & _ & _ & -> & ->)];
    eexists _, _; (split; [reflexivity|]).
  - left. unfold ok_response, NextResponse.json.
    cbn [persisted writes log init app default].
    rewrite (Permutation_length (Array_sort_Permutation _ _)). done.
  - right. by exists e.
Qed.

(** X7: one non-draft pull request without a user, in the listing of a
    listed repository, makes the whole refresh fail: status 500, the
    store as before, nothing written. *)
Theorem X7_missing_user_aborts env up now s repo pr :
  In repo (repos_of up) →
  In pr (pulls_of up (Repo.name repo)) →
  GitHubPullRequest.draft pr = false →
  GitHubPullRequest.user pr = None →
  ∃ e t, Route.GET env up now (init s)
         = (Return (error_response e),
            {| store := s; requests := t; writes := [] |}).
Proof.
  intros Hrepo Hpr Hdraft Huser.
  destruct (Route.GET env up now (init s)) as [resp w'] eqn:Hrun.
  apply GET_cases in Hrun
    as [(out & _ & _ & [_ Hwf] & _ & _)|(e & t & _ & _ & -> & ->)].
  - exfalso. rewrite Forall_forall in Hwf. destruct (Hwf repo) as [_ Hrev].
    { by apply list_elem_of_In. }
    rewrite Forall_forall in Hrev. destruct (Hrev pr) as [_ [u Hu]].
    { apply list_elem_of_In. unfold open_pulls. apply filter_In.
      by rewrite Hdraft. }
    congruence.
  - by exists e, t.
Qed.

Lemma X7_missing_user_aborts_witness :
  In {| Repo.name := "web" |} (repos_of ghost_up)
  ∧ In ghost_pull (pulls_of ghost_up "web")
  ∧ GitHubPullRequest.draft ghost_pull = false
  ∧ GitHubPullRequest.user ghost_pull = None
  ∧ ∃ e t, Route.GET sample_env ghost_up sample_now (init stale_store)
           = (Return (error_response e),
              {| store := stale_store; requests := t; writes := [] |}).
Proof.
  split; [simpl; auto|]. split; [simpl; auto|]. split; [reflexivity|].
  split; [reflexivity|].
  apply (X7_missing_user_aborts sample_env ghost_up sample_now stale_store
           {| Repo.name := "web" |} ghost_pull).
  - simpl; auto.
  - simpl; auto.
  - reflexivity.
  - reflexivity.
Defined.

(** ** Stopping at the first failed call *)

Lemma stops_ret up {A} (a : A) : stops_at_failure up (mret a).
Proof.
  intros w o w' [= <- <-]. exists []. split; [by rewrite log_nil|constructor].
Qed.

Lemma stops_throw up {A} (e : Exn) : stops_at_failure up (throw e : Async A).
Proof.
  intros w o w' [= <- <-]. exists []. split; [by rewrite log_nil|].
  exists []. split; [constructor|by left].
Qed.

Lemma stops_bind up {A B} (m : Async A) (k : A → Async B) :
  stops_at_failure up m → (∀ a, stops_at_failure up (k a)) →
  stops_at_failure up (m ≫= k).
Proof.
  intros Hm Hk w o w'. unfold mbind, Async_bind.
  destruct (m w) as [[a|e] w1] eqn:Hmw.
  - destruct (Hm _ _ _ Hmw) as (t1 & -> & Hc1). intros Hkw.
    destruct (Hk a _ _ _ Hkw) as (t2 & -> & Hc2).
    exists (t1 ++ t2). split; [by rewrite log_app|].
    destruct o as [b|e].
    + by apply Forall_app.
    + destruct Hc2 as (t' & Hc' & Ht). exists (t1 ++ t').
      split; [by apply Forall_app|].
      destruct Ht as [->|[e0 ->]]; [by left|right].
      exists e0. by rewrite app_assoc.
  - intros [= <- <-]. destruct (Hm _ _ _ Hmw) as (t1 & -> & Hc1). by exists t1.
Qed.

(** A call whose reply is an error object returns it to a continuation
    that throws at once. *)
Lemma stops_fetch_bind up {A B} (e : Endpoint) (reply : Reply A)
    (k : Json A → Async B) :
  call_failed up e = reply_failed reply →
  (∀ j, reply = Body j → reply_failed reply = false → stops_at_failure up (k j)) →
  (∀ w, ∃ x, k JObject w = (Throw x, w)) →
  stops_at_failure up (fetch_json e reply ≫= k).
Proof.
  intros He Hk Hobj w o w'. unfold mbind, Async_bind, fetch_json.
  fold (log w [e]).
  assert (Hlast : ∃ t', clean up t' ∧ ([e] = t' ∨ ∃ e0, [e] = t' ++ [e0])).
  { exists []. split; [constructor|]. right. by exists e. }
  assert (Hcont : ∀ j, reply = Body j → reply_failed reply = false →
            k j (log w [e]) = (o, w') →
            ∃ t, w' = log w t
                 ∧ match o with
                   | Return _ => clean up t
                   | Throw _ => ∃ t', clean up t' ∧ (t = t' ∨ ∃ e0, t = t' ++ [e0])
                   end).
  { intros j Hj Hok Hkw. destruct (Hk j Hj Hok _ _ _ Hkw) as (t & -> & Hc).
    assert (He' : clean up [e]).
    { repeat constructor. by rewrite He. }
    exists ([e] ++ t). split; [by rewrite log_app|].
    destruct o as [b|x].
    - by apply Forall_app.
    - destruct Hc as (t' & Hc' & Ht). exists ([e] ++ t').
      split; [by apply Forall_app|].
      destruct Ht as [->|[e0 ->]]; [by left|right].
      exists e0. by rewrite app_assoc. }
  destruct reply as [| |[| |items]].
  - intros [= <- <-]. by exists [e].
  - intros [= <- <-]. by exists [e].
  - by apply Hcont.
  - destruct (Hobj (log w [e])) as [x ->]. intros [= <- <-]. by exists [e].
  - by apply Hcont.
Qed.

Lemma stops_for_of up {A S} (body : A → S → Async S) (xs : list A) :
  (∀ x acc, stops_at_failure up (body x acc)) →
  ∀ acc, stops_at_failure up (for_of xs body acc).
Proof.
  intros Hbody. induction xs as [|x xs IH]; intros acc; simpl.
  - apply stops_ret.
  - apply stops_bind; [apply Hbody|apply IH].
Qed.

Lemma pr_body_stops env up repo pr acc :
  stops_at_failure up (Route.pr_body env up repo pr acc).
Proof.
  unfold Route.pr_body. apply stops_fetch_bind.
  - reflexivity.
  - intros [| |items] _ _; simpl.
    + apply (stops_throw up).
    + apply (stops_throw up).
    + change (mret ?x ≫= ?k) with (k x). cbv beta.
      destruct (GitHubPullRequest.user pr) as [u|].
      * apply stops_ret.
      * apply (stops_throw up).
  - intros w. by eexists.
Qed.

Lemma repo_body_stops env up repo acc :
  stops_at_failure up (Route.repo_body env up repo acc).
Proof.
  unfold Route.repo_body. apply stops_fetch_bind.
  - reflexivity.
  - intros [| |items] _ _; simpl.
    + apply stops_ret.
    + apply (stops_throw up).
    + destruct (length items =? 0); [apply stops_ret|].
      change (mret ?x ≫= ?k) with (k x). cbv beta.
      apply stops_for_of. intros pr acc'. apply pr_body_stops.
  - intros w. by eexists.
Qed.

Lemma allPRs_stops env up : stops_at_failure up (Route.allPRs env up).
Proof.
  unfold Route.allPRs. apply stops_fetch_bind.
  - reflexivity.
  - intros [| |items] _ _; simpl.
    + apply (stops_throw up).
    + apply (stops_throw up).
    + change (mret ?x ≫= ?k) with (k x). cbv beta.
      apply stops_bind; [|intros out; apply stops_ret].
      apply stops_for_of. intros repo acc. apply repo_body_stops.
  - intros w. by eexists.
Qed.

Lemma failed_call_last up (t t' t1 t2 : list Endpoint) (e : Endpoint) :
  clean up t' → (t = t' ∨ ∃ e0, t = t' ++ [e0]) →
  t = t1 ++ e :: t2 → call_failed up e = true → t2 = [].
Proof.
  intros Hclean Ht Hsplit Hfail.
  assert (Hnot : ¬ In e t').
  { intros Hin. unfold clean in Hclean. rewrite Forall_forall in Hclean.
    rewrite (Hclean e) in Hfail; [done|by apply list_elem_of_In]. }
  destruct Ht as [->|[e0 ->]].
  - destruct Hnot. rewrite Hsplit. apply in_app_iff. right. by left.
  - destruct t2 as [|x t2] using rev_ind; [done|]. clear IHt2.
    rewrite app_comm_cons, app_assoc in Hsplit.
    apply app_inj_tail in Hsplit as [-> _].
    destruct Hnot. apply in_app_iff. right. by left.
Qed.

(** X3: the refresh stops at the first failed call: a call that failed
    (rejected fetch, body that is not JSON, error object) is the last
    request of the run, and the run answers status 500. *)
Theorem X3_stops_at_first_failure env up now s resp w' t1 e t2 :
  Route.GET env up now (init s) = (resp, w') →
  requests w' = t1 ++ e :: t2 →
  call_failed up e = true →
  t2 = [] ∧ ∃ x, resp = Return (error_response x).
Proof.
  intros Hrun Hsplit Hfail. rewrite GET_run in Hrun.
  destruct (Route.allPRs env up (init s)) as [[out|x] w1] eqn:Hall;
    injection Hrun as <- <-;
    destruct (allPRs_stops env up _ _ _ Hall) as (t & -> & Hc).
  - exfalso. cbn [persisted requests log init app] in Hsplit.
    unfold clean in Hc. rewrite Forall_forall in Hc.
    rewrite (Hc e) in Hfail; [done|].
    apply list_elem_of_In. rewrite Hsplit. apply in_app_iff. right. by left.
  - cbn [requests log init app] in Hsplit.
    destruct Hc as (t' & Hclean & Ht).
    split; [|by exists x].
    by apply (failed_call_last up t t' t1 t2 e).
Qed.

Lemma X3_stops_at_first_failure_witness :
  Route.GET sample_env broken_up sample_now (init stale_store)
    = (Return (error_response TypeError_not_a_function),
       {| store := stale_store; requests := [OrgRepos; RepoPulls "web"];
          writes := [] |})
  ∧ requests {| store := stale_store; requests := [OrgRepos; RepoPulls "web"];
                writes := [] |}
    = [OrgRepos] ++ RepoPulls "web" :: []
  ∧ call_failed broken_up (RepoPulls "web") = true
  ∧ [] = ([] : list Endpoint)
  ∧ ∃ x, Return (error_response TypeError_not_a_function)
         = Return (error_response x).
Proof.
  split; [reflexivity|]. split; [reflexivity|].
  split; [reflexivity|].
  apply (X3_stops_at_first_failure sample_env broken_up sample_now stale_store
           (Return (error_response TypeError_not_a_function))
           {| store := stale_store; requests := [OrgRepos; RepoPulls "web"];
              writes := [] |}
           [OrgRepos] (RepoPulls "web") []).
  - reflexivity.
  - reflexivity.
  - reflexivity.
Defined.

(** * Properties of the dashboard page *)

(** X8: the badge is red exactly when the icon is red, which is exactly
    when the row has no approvals (absent or 0); a green icon always
    comes with a green badge; but a yellow icon sits on a green badge
    exactly when the count is 2 (or negative). *)
Theorem X8_badge_and_icon (a : option Z) :
  (Page.getApprovalBadgeColor a = "bg-red-100 text-red-800"
     ↔ Page.getPriorityIcon a = "🔴")
  ∧ (Page.getPriorityIcon a = "🔴" ↔ default 0%Z a = 0%Z)
  ∧ (Page.getPriorityIcon a = "🟢"
       → Page.getApprovalBadgeColor a = "bg-green-100 text-green-800")
  ∧ (Page.getPriorityIcon a = "🟡"
       ∧ Page.getApprovalBadgeColor a = "bg-green-100 text-green-800"
     ↔ default 0%Z a = 2%Z ∨ (default 0%Z a < 0)%Z).
Proof.
  unfold Page.getApprovalBadgeColor, Page.getPriorityIcon.
  generalize (default 0%Z a) as n. intros n. cbv zeta.
  destruct (Z.eqb_spec n 0), (Z.eqb_spec n 1), (Z.leb_spec n 2);
    repeat match goal with
           | |- _ ∧ _ => split
           | |- _ ↔ _ => split
           | |- _ → _ => intro
           | H : _ ∧ _ |- _ => destruct H
           | H : _ ∨ _ |- _ => destruct H
           end;
    first [reflexivity | discriminate | lia | right; lia | left; lia].
Qed.

Lemma div_below (d q : Z) : (0 < q)%Z → ((d / q <? 1) = (d <? q))%Z.
Proof.
  intros Hq. destruct (d <? q)%Z eqn:Hd.
  - apply Z.ltb_lt in Hd. apply Z.ltb_lt.
    apply Z.div_lt_upper_bound; lia.
  - apply Z.ltb_ge in Hd. apply Z.ltb_ge.
    apply Z.div_le_lower_bound; lia.
Qed.

(** X9: [formatLastRefresh] by the age of the date: under a minute
    (also when the date lies in the future) it says Just now; from one
    minute to under an hour it shows the whole minutes, 1 to 59; from one
    hour to under a day the whole hours, 1 to 23; from one day on, and
    for an invalid date, the localized date; for [null] it gives
    [null]. *)
Theorem X9_formatLastRefresh_cases (pf : Page.Platform) (now t : Z) :
  ((now - t < 60000)%Z →
     Page.formatLastRefresh pf now (Some (Page.Time t)) = Some "Just now")
  ∧ ((60000 ≤ now - t < 3600000)%Z →
     ∃ m, (1 ≤ m ≤ 59)%Z ∧ m = ((now - t) / 60000)%Z
          ∧ Page.formatLastRefresh pf now (Some (Page.Time t))
            = Some (pretty m +:+ "m ago"))
  ∧ ((3600000 ≤ now - t < 86400000)%Z →
     ∃ h, (1 ≤ h ≤ 23)%Z ∧ h = ((now - t) / 3600000)%Z
          ∧ Page.formatLastRefresh pf now (Some (Page.Time t))
            = Some (pretty h +:+ "h ago"))
  ∧ ((86400000 ≤ now - t)%Z →
     Page.formatLastRefresh pf now (Some (Page.Time t))
     = Some (Page.toLocaleDateString pf (Page.Time t)))
  ∧ Page.formatLastRefresh pf now (Some Page.InvalidDate)
    = Some (Page.toLocaleDateString pf Page.InvalidDate)
  ∧ Page.formatLastRefresh pf now None = None.
Proof.
  unfold Page.formatLastRefresh. cbv zeta.
  set (d := (now - t)%Z).
  assert (Hm1 : (d / 60000 <? 1)%Z = (d <? 60000)%Z) by (by apply div_below).
  assert (Hm60 : (d / 60000 <? 60)%Z = (d <? 3600000)%Z).
  { destruct (d <? 3600000)%Z eqn:Hd.
    - apply Z.ltb_lt in Hd. apply Z.ltb_lt. apply Z.div_lt_upper_bound; lia.
    - apply Z.ltb_ge in Hd. apply Z.ltb_ge. apply Z.div_le_lower_bound; lia. }
  assert (Hh24 : (d / 3600000 <? 24)%Z = (d <? 86400000)%Z).
  { destruct (d <? 86400000)%Z eqn:Hd.
    - apply Z.ltb_lt in Hd. apply Z.ltb_lt. apply Z.div_lt_upper_bound; lia.
    - apply Z.ltb_ge in Hd. apply Z.ltb_ge. apply Z.div_le_lower_bound; lia. }
  rewrite Hm1, Hm60, Hh24.
  split; [|split; [|split; [|split; [|done]]]].
  - intros Hd. apply Z.ltb_lt in Hd. by rewrite Hd.
  - intros [Hlo Hhi]. exists (d / 60000)%Z.
    split; [|split; [done|]].
    + split; [apply Z.div_le_lower_bound; lia|].
      assert (d / 60000 < 60)%Z by (apply Z.div_lt_upper_bound; lia). lia.
    + apply Z.ltb_ge in Hlo. apply Z.ltb_lt in Hhi. by rewrite Hlo, Hhi.
  - intros [Hlo Hhi]. exists (d / 3600000)%Z.
    split; [|split; [done|]].
    + split; [apply Z.div_le_lower_bound; lia|].
      assert (d / 3600000 < 24)%Z by (apply Z.div_lt_upper_bound; lia). lia.
    + assert (H1 : (d <? 60000)%Z = false) by (apply Z.ltb_ge; lia).
      assert (H2 : (d <? 3600000)%Z = false) by (apply Z.ltb_ge; lia).
      apply Z.ltb_lt in Hhi. by rewrite H1, H2, Hhi.
  - intros Hd.
    assert (H1 : (d <? 60000)%Z = false) by (apply Z.ltb_ge; lia).
    assert (H2 : (d <? 3600000)%Z = false) by (apply Z.ltb_ge; lia).
    assert (H3 : (d <? 86400000)%Z = false) by (apply Z.ltb_ge; lia).
    by rewrite H1, H2, H3.
Qed.

(** ** Sorting the rows *)

Section SortingRows.
Context {A : Type} (compareFn : A → A → Z) (key : A → Z).

Let ordered (a b : A) : Prop := (key a ≤ key b)%Z.

(** The comparator orders the elements of [l] by [key]. *)
Let agrees (l : list A) : Prop :=
  ∀ a b, In a l → In b l → (compareFn a b <=? 0)%Z = (key a <=? key b)%Z.

Lemma sort_insert_sorted_in x l :
  StronglySorted ordered l →
  (∀ y, In y l → (compareFn x y <=? 0)%Z = (key x <=? key y)%Z) →
  StronglySorted ordered (sort_insert compareFn x l).
Proof.
  induction 1 as [|y l Hl IH Hy]; intros Hx; simpl.
  - repeat constructor.
  - destruct (compareFn x y <=? 0)%Z eqn:Hc.
    + rewrite Hx in Hc by (by left). apply Z.leb_le in Hc.
      constructor; [by constructor|].
      constructor; [done|].
      eapply Forall_impl; [exact Hy|]. unfold ordered. simpl. lia.
    + rewrite Hx in Hc by (by left). apply Z.leb_gt in Hc.
      constructor; [apply IH; intros z Hz; apply Hx; by right|].
      rewrite sort_insert_Permutation. constructor; [|done].
      unfold ordered. lia.
Qed.

Lemma Array_sort_sorted_in l :
  agrees l → StronglySorted ordered (Array_sort compareFn l).
Proof.
  induction l as [|x l IH]; intros Hl; simpl; [constructor|].
  apply sort_insert_sorted_in.
  - apply IH. intros a b Ha Hb. apply Hl; by right.
  - intros y Hy. apply Hl; [by left|right].
    by apply (Permutation_in _ (Array_sort_Permutation compareFn l)).
Qed.

Lemma sort_insert_stable_in (p : A → bool) x l :
  (∀ y, In y l → p x = true → p y = true → (compareFn x y <=? 0)%Z = true) →
  List.filter p (sort_insert compareFn x l) = List.filter p (x :: l).
Proof.
  induction l as [|y l IH]; intros Hx; [done|].
  cbn [sort_insert]. destruct (compareFn x y <=? 0)%Z eqn:Hc; [done|].
  cbn [List.filter] in *. rewrite IH by (intros z Hz; apply Hx; by right).
  destruct (p x) eqn:Hpx, (p y) eqn:Hpy; try done.
  rewrite Hx in Hc; [done|by left|done|done].
Qed.

Lemma Array_sort_stable_in (p : A → bool) l :
  (∀ a b, In a l → In b l → p a = true → p b = true →
     (compareFn a b <=? 0)%Z = true) →
  List.filter p (Array_sort compareFn l) = List.filter p l.
Proof.
  induction l as [|x l IH]; intros Hl; [done|].
  cbn [Array_sort foldr]. fold (Array_sort compareFn l).
  rewrite sort_insert_stable_in.
  - cbn [List.filter]. rewrite IH; [done|].
    intros a b Ha Hb. apply Hl; by right.
  - intros y Hy. apply Hl; [by left|right].
    by apply (Permutation_in _ (Array_sort_Permutation compareFn l)).
Qed.

Lemma Array_sort_sorted_id l :
  agrees l → StronglySorted ordered l → Array_sort compareFn l = l.
Proof.
  intros Hl Hs. induction Hs as [|x l Hs IH Hx]; [done|].
  cbn [Array_sort foldr]. fold (Array_sort compareFn l).
  rewrite IH by (intros a b Ha Hb; apply Hl; by right).
  destruct l as [|y l]; [done|]. simpl.
  rewrite Hl; [|by left|right; by left].
  apply Forall_cons in Hx as [Hxy _]. unfold ordered in Hxy.
  apply Z.leb_le in Hxy. by rewrite Hxy.
Qed.

End SortingRows.

Lemma StronglySorted_weaken {A} (R S : A → A → Prop) (l : list A) :
  (∀ a b, R a b → S a b) → StronglySorted R l → StronglySorted S l.
Proof.
  intros HRS. induction 1 as [|x l Hl IH Hx]; constructor; [done|].
  eapply Forall_impl; [exact Hx|]. intros y. apply HRS.
Qed.

Lemma approvals_compareFn pf a b :
  (Page.compareFn pf "approvals" a b <=? 0)%Z
  = (default 0%Z (Page.PR.approvals a) <=? default 0%Z (Page.PR.approvals b))%Z.
Proof.
  unfold Page.compareFn. cbn [String.eqb Ascii.eqb Bool.eqb andb].
  rewrite !js_or_zero.
  destruct (Z.leb_spec (default 0%Z (Page.PR.approvals a))
              (default 0%Z (Page.PR.approvals b))).
  - apply Z.leb_le. lia.
  - apply Z.leb_gt. lia.
Qed.

(** X10: in the mode [approvals] the page shows the rows in
    non-decreasing order of their approval count, a row without count
    counting as 0; the rows are the same rows, and rows of equal count
    keep the order they were loaded in. *)
Theorem X10_sorted_by_approvals pf (prs : list Page.PR.t) :
  StronglySorted
    (λ a b, (default 0%Z (Page.PR.approvals a) ≤ default 0%Z (Page.PR.approvals b))%Z)
    (Page.sortedPrs pf "approvals" prs)
  ∧ Permutation (Page.sortedPrs pf "approvals" prs) prs
  ∧ ∀ k : Z,
      List.filter (λ r, (default 0%Z (Page.PR.approvals r) =? k)%Z)
        (Page.sortedPrs pf "approvals" prs)
      = List.filter (λ r, (default 0%Z (Page.PR.approvals r) =? k)%Z) prs.
Proof.
  unfold Page.sortedPrs. split; [|split].
  - apply (Array_sort_sorted_in _ (λ r, default 0%Z (Page.PR.approvals r))).
    intros a b _ _. apply approvals_compareFn.
  - apply Array_sort_Permutation.
  - intros k. apply Array_sort_stable_in. intros a b _ _ Ha Hb.
    rewrite approvals_compareFn. apply Z.eqb_eq in Ha, Hb. apply Z.leb_le. lia.
Qed.

(** X11: rows that are loaded in non-decreasing order of approval count,
    as the query of the page asks for, are shown in the order they were
    loaded in. *)
Theorem X11_ordered_rows_stay pf (prs : list Page.PR.t) :
  StronglySorted
    (λ a b, (default 0%Z (Page.PR.approvals a) ≤ default 0%Z (Page.PR.approvals b))%Z)
    prs →
  Page.sortedPrs pf "approvals" prs = prs.
Proof.
  intros Hs. unfold Page.sortedPrs.
  apply (Array_sort_sorted_id _ (λ r, default 0%Z (Page.PR.approvals r)));
    [|done].
  intros a b _ _. apply approvals_compareFn.
Qed.

Lemma X11_ordered_rows_stay_witness :
  StronglySorted
    (λ a b, (default 0%Z (Page.PR.approvals a) ≤ default 0%Z (Page.PR.approvals b))%Z)
    sample_rows
  ∧ Page.sortedPrs sample_platform "approvals" sample_rows = sample_rows.
Proof.
  assert (Hs : StronglySorted
    (λ a b, (default 0%Z (Page.PR.approvals a) ≤ default 0%Z (Page.PR.approvals b))%Z)
    sample_rows).
  { unfold sample_rows. repeat constructor; simpl; lia. }
  split; [exact Hs|].
  apply (X11_ordered_rows_stay sample_platform sample_rows Hs).
Defined.

Lemma updated_compareFn pf a b ta tb :
  updated_time pf a = Some ta → updated_time pf b = Some tb →
  Page.compareFn pf "updated" a b = (tb - ta)%Z.
Proof.
  unfold updated_time, Page.compareFn. intros -> ->.
  reflexivity.
Qed.

(** X12: in the mode [updated], when the [updated_at] of every row is a
    valid date, the page shows the rows newest first, and rows with the
    same time keep the order they were loaded in. *)
Theorem X12_sorted_by_updated pf (prs : list Page.PR.t) :
  (∀ r, In r prs → is_Some (updated_time pf r)) →
  StronglySorted
    (λ a b, (default 0%Z (updated_time pf b) ≤ default 0%Z (updated_time pf a))%Z)
    (Page.sortedPrs pf "updated" prs)
  ∧ ∀ t : Z,
      List.filter (λ r, bool_decide (updated_time pf r = Some t))
        (Page.sortedPrs pf "updated" prs)
      = List.filter (λ r, bool_decide (updated_time pf r = Some t)) prs.
Proof.
  intros Hvalid. unfold Page.sortedPrs. split.
  - pose proof (Array_sort_sorted_in (Page.compareFn pf "updated")
                  (λ r, (- default 0%Z (updated_time pf r))%Z) prs) as Hs.
    eapply StronglySorted_weaken; [|apply Hs].
    + simpl. intros a b. lia.
    + intros a b Ha Hb.
      destruct (Hvalid a Ha) as [ta Hta], (Hvalid b Hb) as [tb Htb].
      rewrite (updated_compareFn pf a b ta tb Hta Htb), Hta, Htb. simpl.
      destruct (Z.leb_spec (- ta) (- tb)).
      * apply Z.leb_le. lia.
      * apply Z.leb_gt. lia.
  - intros t. apply Array_sort_stable_in. intros a b Ha Hb Hpa Hpb.
    apply bool_decide_eq_true in Hpa, Hpb.
    rewrite (updated_compareFn pf a b t t Hpa Hpb). apply Z.leb_le. lia.
Qed.

Lemma X12_sorted_by_updated_witness :
  (∀ r, In r sample_rows → is_Some (updated_time sample_platform r))
  ∧ StronglySorted
      (λ a b, (default 0%Z (updated_time sample_platform b)
               ≤ default 0%Z (updated_time sample_platform a))%Z)
      (Page.sortedPrs sample_platform "updated" sample_rows)
  ∧ ∀ t : Z,
      List.filter (λ r, bool_decide (updated_time sample_platform r = Some t))
        (Page.sortedPrs sample_platform "updated" sample_rows)
      = List.filter (λ r, bool_decide (updated_time sample_platform r = Some t))
          sample_rows.
Proof.
  assert (Hvalid : ∀ r, In r sample_rows → is_Some (updated_time sample_platform r)).
  { intros r [<-|[<-|[<-|[]]]]; eexists; reflexivity. }
  split; [exact Hvalid|].
  apply (X12_sorted_by_updated sample_platform sample_rows Hvalid).
Defined.

Lemma StronglySorted_trivial {A} (l : list A) :
  StronglySorted (λ _ _ : A, (0 ≤ 0)%Z) l.
Proof. induction l; constructor; [done|]. by apply Forall_forall. Qed.

(** X13: whatever the sort mode, the dates and the collation are, the
    page shows each loaded row exactly once; and in a mode other than the
    three it knows it shows the rows in the order they were loaded in. *)
Theorem X13_sortedPrs_permutation pf sortBy (prs : list Page.PR.t) :
  Permutation (Page.sortedPrs pf sortBy prs) prs
  ∧ (sortBy ≠ "approvals" → sortBy ≠ "updated" → sortBy ≠ "title" →
     Page.sortedPrs pf sortBy prs = prs).
Proof.
  split; [apply Array_sort_Permutation|].
  intros H1 H2 H3. unfold Page.sortedPrs.
  apply (Array_sort_sorted_id _ (λ _, 0%Z)); [|apply StronglySorted_trivial].
  intros a b _ _. unfold Page.compareFn.
  apply String.eqb_neq in H1, H2, H3. by rewrite H1, H2, H3.
Qed.

(** ** Loading and refreshing *)

Lemma fetchLastRefresh_run pf net b :
  ∃ b', Page.fetchLastRefreshFromFirestore pf net b = (inl tt, b')
        ∧ Page.backend b' = Page.backend b
        ∧ Page.prs (Page.page b') = Page.prs (Page.page b)
        ∧ Page.loading (Page.page b') = Page.loading (Page.page b)
        ∧ Page.viewMode (Page.page b') = Page.viewMode (Page.page b)
        ∧ Page.sortBy (Page.page b') = Page.sortBy (Page.page b)
        ∧ (∀ data v,
             Page.getDoc_rejects net = false →
             store (Page.backend b) !! ("metadata", "system") = Some data →
             data !! "lastRefresh" = Some v →
             Page.truthy v = true →
             Page.lastRefresh (Page.page b') = Some (Page.Date_new pf v)).
Proof.
  unfold Page.fetchLastRefreshFromFirestore, Page.try_catch, mbind,
    Page.Client_bind, Page.getDoc.
  destruct (Page.getDoc_rejects net) eqn:Hrej.
  { exists b. by repeat split. }
  destruct (store (Page.backend b) !! ("metadata", "system")) as [data|] eqn:Hdoc.
  2: { exists b. by repeat split. }
  destruct (data !! "lastRefresh") as [v|] eqn:Hv.
  2: { exists b. repeat split; try done.
       intros data' v' _ [= <-] Hv'. by rewrite Hv in Hv'. }
  destruct (Page.truthy v) eqn:Ht.
  2: { exists b. repeat split; try done.
       intros data' v' _ [= <-] Hv'. rewrite Hv in Hv'. injection Hv' as <-.
       by rewrite Ht. }
  eexists. split; [reflexivity|]. cbn.
  repeat split; try done.
  intros data' v' _ [= <-] Hv'. rewrite Hv in Hv'. by injection Hv' as <-.
Qed.

Lemma fetchPrs_run pf net b :
  match Page.getDocs_prs net (store (Page.backend b)) with
  | None => Page.fetchPrsFromFirestore pf net b = (inr Page.firestore_rejected, b)
  | Some docs =>
      ∃ b', Page.fetchPrsFromFirestore pf net b = (inl tt, b')
            ∧ Page.backend b' = Page.backend b
            ∧ Page.prs (Page.page b') = map (λ doc, Page.row doc.1 doc.2) docs
            ∧ Page.loading (Page.page b') = Page.loading (Page.page b)
            ∧ Page.viewMode (Page.page b') = Page.viewMode (Page.page b)
            ∧ Page.sortBy (Page.page b') = Page.sortBy (Page.page b)
            ∧ (∀ data v,
                 Page.getDoc_rejects net = false →
                 store (Page.backend b) !! ("metadata", "system") = Some data →
                 data !! "lastRefresh" = Some v →
                 Page.truthy v = true →
                 Page.lastRefresh (Page.page b') = Some (Page.Date_new pf v))
  end.
Proof.
  unfold Page.fetchPrsFromFirestore, mbind, Page.Client_bind, Page.getDocs.
  destruct (Page.getDocs_prs net (store (Page.backend b))) as [docs|]; [|done].
  unfold Page.setPrs at 1.
  destruct (fetchLastRefresh_run pf net
    {| Page.page := {| Page.prs := map (λ doc, Page.row doc.1 doc.2) docs;
                       Page.loading := Page.loading (Page.page b);
                       Page.viewMode := Page.viewMode (Page.page b);
                       Page.sortBy := Page.sortBy (Page.page b);
                       Page.lastRefresh := Page.lastRefresh (Page.page b) |};
       Page.backend := Page.backend b |})
    as (b' & Hrun & Hback & Hprs & Hload & Hview & Hsort & Hlast).
  exists b'. cbn in *. by rewrite Hrun.
Qed.

(** X14: [handleRefresh] always settles without rejecting and with the
    loading flag off, and it leaves the view and sort modes alone.  When
    the refresh request does not get through, or the rows query rejects,
    the rows and the refresh time shown are the ones shown before; when
    the request gets through, the rows are reloaded from the store the
    handler left, whatever the handler answered. *)
Theorem X14_handleRefresh_settles env up now pf net b :
  ∃ b',
    Page.handleRefresh env up now pf net b = (inl tt, b')
    ∧ Page.loading (Page.page b') = false
    ∧ Page.viewMode (Page.page b') = Page.viewMode (Page.page b)
    ∧ Page.sortBy (Page.page b') = Page.sortBy (Page.page b)
    ∧ (Page.refresh_reachable net = false →
         Page.backend b' = Page.backend b
         ∧ Page.prs (Page.page b') = Page.prs (Page.page b)
         ∧ Page.lastRefresh (Page.page b') = Page.lastRefresh (Page.page b))
    ∧ (Page.refresh_reachable net = true →
         Page.backend b' = (Route.GET env up now (Page.backend b)).2
         ∧ match Page.getDocs_prs net (store (Page.backend b')) with
           | None =>
               Page.prs (Page.page b') = Page.prs (Page.page b)
               ∧ Page.lastRefresh (Page.page b') = Page.lastRefresh (Page.page b)
           | Some docs =>
               Page.prs (Page.page b') = map (λ doc, Page.row doc.1 doc.2) docs
           end).
Proof.
  unfold Page.handleRefresh, Page.try_finally, Page.try_catch,
    mbind at 1 2, Page.Client_bind at 1 2, Page.setLoading at 1,
    Page.fetch_refresh.
  destruct (Page.refresh_reachable net) eqn:Hreach.
  - cbn [Page.page Page.backend].
    set (b1 := {| Page.page := _; Page.backend := _ |}).
    pose proof (fetchPrs_run pf net b1) as Hfetch.
    change (store (Page.backend b1))
      with (store (Route.GET env up now (Page.backend b)).2) in Hfetch.
    destruct (Page.getDocs_prs net (store (Route.GET env up now (Page.backend b)).2))
      as [docs|] eqn:Hdocs.
    + destruct Hfetch as (b2 & -> & Hback & Hprs & Hload & Hview & Hsort & _).
      eexists. split; [reflexivity|]. cbn.
      rewrite Hview, Hsort, Hback, Hprs. subst b1. cbn.
      repeat split; try done. by rewrite Hdocs.
    + rewrite Hfetch. eexists. split; [reflexivity|]. subst b1. cbn.
      repeat split; try done. by rewrite Hdocs.
  - eexists. split; [reflexivity|]. cbn. repeat split; done.
Qed.

Lemma GET_well_formed env up now w :
  well_formed up →
  (Route.GET env up now w).2
  = persisted now (Array_sort Route.compareFn (encountered env up))
      (log w (expected_requests up)).
Proof. intros Hwf. by rewrite GET_run, (allPRs_well_formed _ _ _ Hwf). Qed.

Lemma handleRefresh_reached env up now pf net b b' docs :
  Page.refresh_reachable net = true →
  Page.getDocs_prs net (store (Route.GET env up now (Page.backend b)).2) = Some docs →
  Page.handleRefresh env up now pf net b = (inl tt, b') →
  Page.prs (Page.page b') = map (λ doc, Page.row doc.1 doc.2) docs
  ∧ ∀ data v,
      Page.getDoc_rejects net = false →
      store (Route.GET env up now (Page.backend b)).2 !! ("metadata", "system")
        = Some data →
      data !! "lastRefresh" = Some v →
      Page.truthy v = true →
      Page.lastRefresh (Page.page b') = Some (Page.Date_new pf v).
Proof.
  intros Hreach Hdocs.
  unfold Page.handleRefresh, Page.try_finally, Page.try_catch,
    mbind at 1 2, Page.Client_bind at 1 2, Page.setLoading at 1,
    Page.fetch_refresh.
  rewrite Hreach. cbn [Page.page Page.backend].
  set (b1 := {| Page.page := _; Page.backend := _ |}).
  pose proof (fetchPrs_run pf net b1) as Hfetch.
  change (store (Page.backend b1))
    with (store (Route.GET env up now (Page.backend b)).2) in Hfetch.
  rewrite Hdocs in Hfetch.
  destruct Hfetch as (b2 & -> & Hback & Hprs & Hload & Hview & Hsort & Hlast).
  intros [= <-]. cbn. split; [done|]. exact Hlast.
Qed.

(** X15: when the refresh request gets through to a well-formed source
    and the reads that follow succeed, the page shows as time of the last
    refresh the date of the timestamp the handler has just written. *)
Theorem X15_refresh_time_shown env up now pf net b b' docs :
  Page.refresh_reachable net = true →
  Page.getDoc_rejects net = false →
  Page.getDocs_prs net (store (Route.GET env up now (Page.backend b)).2) = Some docs →
  well_formed up →
  now ≠ "" →
  Page.handleRefresh env up now pf net b = (inl tt, b') →
  Page.lastRefresh (Page.page b') = Some (Page.Date_parse pf now).
Proof.
  intros Hreach Hdoc Hdocs Hwf Hnow Hrun.
  destruct (handleRefresh_reached _ _ _ _ _ _ _ _ Hreach Hdocs Hrun) as [_ Hlast].
  assert (Hfield : ∀ n (o : option Doc),
            merge_doc (metadata_doc now n) o !! "lastRefresh" = Some (VString now)).
  { intros n [old|]; simpl.
    - apply lookup_union_Some_l. unfold metadata_doc. by simplify_map_eq.
    - unfold metadata_doc. by simplify_map_eq. }
  eapply (Hlast _ (VString now) Hdoc).
  - rewrite (GET_well_formed _ _ _ _ Hwf). apply persisted_metadata.
  - apply Hfield.
  - simpl. apply negb_true_iff. by apply String.eqb_neq.
Qed.

Lemma sample_docs_loaded :
  Page.getDocs_prs sample_net
    (store (Route.GET sample_env sample_up sample_now
              (Page.backend sample_browser)).2)
  = Some sample_docs.
Proof. reflexivity. Defined.

Lemma sample_handleRefresh :
  Page.handleRefresh sample_env sample_up sample_now sample_platform
    sample_net sample_browser
  = (inl tt, sample_browser_after).
Proof. vm_compute. reflexivity. Defined.

Lemma X15_refresh_time_shown_witness :
  Page.refresh_reachable sample_net = true
  ∧ Page.getDoc_rejects sample_net = false
  ∧ Page.getDocs_prs sample_net
      (store (Route.GET sample_env sample_up sample_now
                (Page.backend sample_browser)).2)
    = Some sample_docs
  ∧ well_formed sample_up
  ∧ sample_now ≠ ""
  ∧ Page.handleRefresh sample_env sample_up sample_now sample_platform
      sample_net sample_browser
    = (inl tt, sample_browser_after)
  ∧ Page.lastRefresh (Page.page sample_browser_after)
    = Some (Page.Date_parse sample_platform sample_now).
Proof.
  assert (Hnow : sample_now ≠ "") by discriminate.
  split; [reflexivity|]. split; [reflexivity|].
  split; [exact sample_docs_loaded|].
  split; [exact sample_up_well_formed|]. split; [exact Hnow|].
  split; [exact sample_handleRefresh|].
  apply (X15_refresh_time_shown sample_env sample_up sample_now sample_platform
           sample_net sample_browser sample_browser_after sample_docs).
  - reflexivity.
  - reflexivity.
  - exact sample_docs_loaded.
  - exact sample_up_well_formed.
  - exact Hnow.
  - exact sample_handleRefresh.
Defined.

Lemma row_of_stored (pr : PR.t) (d : Doc) :
  to_doc pr ⊆ d → Page.row (PR.id pr) d = row_of_record pr.
Proof.
  intros Hsub.
  destruct (to_doc_fields pr) as (Hid & Ht & Hr & Ha & Hu & Hup & Hap).
  unfold Page.row, row_of_record, Page.string_field, Page.number_field.
  rewrite (lookup_weaken _ _ _ _ Hid Hsub), (lookup_weaken _ _ _ _ Ht Hsub),
    (lookup_weaken _ _ _ _ Hr Hsub), (lookup_weaken _ _ _ _ Ha Hsub),
    (lookup_weaken _ _ _ _ Hu Hsub), (lookup_weaken _ _ _ _ Hup Hsub),
    (lookup_weaken _ _ _ _ Hap Hsub).
  reflexivity.
Qed.

(** X16: after a refresh of a well-formed source, every document the
    rows query returns from the record collection for an id the refresh
    wrote is shown as the row of a record of that refresh with that id:
    same id, title, repository, author, link, update time and approval
    count. *)
Theorem X16_rows_show_records env up now pf net b b' docs :
  Page.refresh_reachable net = true →
  Page.getDocs_prs net (store (Route.GET env up now (Page.backend b)).2) = Some docs →
  (∀ k d, In (k, d) docs →
     store (Route.GET env up now (Page.backend b)).2 !! ("prs", k) = Some d) →
  well_formed up →
  Page.handleRefresh env up now pf net b = (inl tt, b') →
  Page.prs (Page.page b') = map (λ doc, Page.row doc.1 doc.2) docs
  ∧ ∀ k d, In (k, d) docs → In k (map PR.id (encountered env up)) →
      ∃ r, In r (encountered env up) ∧ PR.id r = k
           ∧ Page.row k d = row_of_record r.
Proof.
  intros Hreach Hdocs Hsound Hwf Hrun.
  destruct (handleRefresh_reached _ _ _ _ _ _ _ _ Hreach Hdocs Hrun) as [Hprs _].
  split; [done|]. intros k d Hin Hk.
  specialize (Hsound k d Hin).
  rewrite (GET_well_formed _ _ _ _ Hwf), persisted_prs in Hsound.
  set (out := Array_sort Route.compareFn (encountered env up)) in *.
  assert (Hperm : Permutation out (encountered env up))
    by apply Array_sort_Permutation.
  destruct (doc_steps_written k
              (store (log (Page.backend b) (expected_requests up)) !! ("prs", k)) out)
    as (pr & d0 & Hpr & Hid & Hd0 & Hsub).
  { apply (Permutation_in _ (Permutation_sym (Permutation_map PR.id Hperm))).
    exact Hk. }
  rewrite Hd0 in Hsound. injection Hsound as ->.
  exists pr. split; [by apply (Permutation_in _ Hperm)|]. split; [done|].
  rewrite <- Hid. by apply row_of_stored.
Qed.

Lemma stored_docs_sound (s : Store) (keys : list string) (k : string) (d : Doc) :
  In (k, d) (omap (λ k, (λ d : Doc, (k, d)) <$> s !! ("prs", k)) keys) →
  s !! ("prs", k) = Some d.
Proof.
  intros Hin. apply list_elem_of_In, list_elem_of_omap in Hin as (k' & _ & Hk).
  destruct (s !! ("prs", k')) as [d'|] eqn:Hd; simpl in Hk; [|done].
  by injection Hk as -> ->.
Qed.

Lemma X16_rows_show_records_witness :
  Page.refresh_reachable sample_net = true
  ∧ Page.getDocs_prs sample_net
      (store (Route.GET sample_env sample_up sample_now
                (Page.backend sample_browser)).2)
    = Some sample_docs
  ∧ (∀ k d, In (k, d) sample_docs →
       store (Route.GET sample_env sample_up sample_now
                (Page.backend sample_browser)).2 !! ("prs", k) = Some d)
  ∧ well_formed sample_up
  ∧ Page.handleRefresh sample_env sample_up sample_now sample_platform
      sample_net sample_browser
    = (inl tt, sample_browser_after)
  ∧ Page.prs (Page.page sample_browser_after)
    = map (λ doc, Page.row doc.1 doc.2) sample_docs
  ∧ ∀ k d, In (k, d) sample_docs →
      In k (map PR.id (encountered sample_env sample_up)) →
      ∃ r, In r (encountered sample_env sample_up) ∧ PR.id r = k
           ∧ Page.row k d = row_of_record r.
Proof.
  assert (Hsound : ∀ k d, In (k, d) sample_docs →
       store (Route.GET sample_env sample_up sample_now
                (Page.backend sample_browser)).2 !! ("prs", k) = Some d).
  { intros k d Hin.
    change (store (Route.GET sample_env sample_up sample_now
                     (Page.backend sample_browser)).2)
      with (store (sample_world stale_store)).
    by apply (stored_docs_sound _ ["api-1"; "web-9"; "web-7"]). }
  split; [reflexivity|]. split; [exact sample_docs_loaded|].
  split; [exact Hsound|].
  split; [exact sample_up_well_formed|]. split; [exact sample_handleRefresh|].
  apply (X16_rows_show_records sample_env sample_up sample_now sample_platform
           sample_net sample_browser sample_browser_after sample_docs).
  - reflexivity.
  - exact sample_docs_loaded.
  - exact Hsound.
  - exact sample_up_well_formed.
  - exact sample_handleRefresh.
Defined.

Lemma fetchLastRefresh_keeps pf net b :
  (Page.getDoc_rejects net = true
   ∨ store (Page.backend b) !! ("metadata", "system") = None
   ∨ (∃ data, store (Page.backend b) !! ("metadata", "system") = Some data
              ∧ (data !! "lastRefresh" = None
                 ∨ ∃ v, data !! "lastRefresh" = Some v ∧ Page.truthy v = false))) →
  Page.fetchLastRefreshFromFirestore pf net b = (inl tt, b).
Proof.
  unfold Page.fetchLastRefreshFromFirestore, Page.try_catch, mbind,
    Page.Client_bind, Page.getDoc.
  intros [->|[Hnone|(data & Hdata & [Hf|(v & Hv & Ht)])]]; [done|..];
    destruct (Page.getDoc_rejects net); try done.
  - by rewrite Hnone.
  - by rewrite Hdata, Hf.
  - by rewrite Hdata, Hv, Ht.
Qed.

(** X17: loading the rows rejects exactly when the rows query rejects,
    and then nothing on the page changes.  Otherwise the rows become the
    documents the query returned, in that order; a metadata read that
    rejects, a missing metadata document and a missing or empty
    [lastRefresh] field are no error: the refresh time shown stays as it
    was; a non-empty [lastRefresh] becomes the refresh time shown. *)
Theorem X17_loading_rows pf net b :
  (Page.getDocs_prs net (store (Page.backend b)) = None →
     Page.fetchPrsFromFirestore pf net b = (inr Page.firestore_rejected, b))
  ∧ (∀ docs, Page.getDocs_prs net (store (Page.backend b)) = Some docs →
     ∃ b',
       Page.fetchPrsFromFirestore pf net b = (inl tt, b')
       ∧ Page.backend b' = Page.backend b
       ∧ Page.prs (Page.page b') = map (λ doc, Page.row doc.1 doc.2) docs
       ∧ Page.loading (Page.page b') = Page.loading (Page.page b)
       ∧ (Page.getDoc_rejects net = true
          ∨ store (Page.backend b) !! ("metadata", "system") = None
          ∨ (∃ data, store (Page.backend b) !! ("metadata", "system") = Some data
                     ∧ (data !! "lastRefresh" = None
                        ∨ data !! "lastRefresh" = Some (VString "")
                        ∨ data !! "lastRefresh" = Some (VNumber 0))) →
          Page.lastRefresh (Page.page b') = Page.lastRefresh (Page.page b))
       ∧ (∀ data s,
            Page.getDoc_rejects net = false →
            store (Page.backend b) !! ("metadata", "system") = Some data →
            data !! "lastRefresh" = Some (VString s) → s ≠ "" →
            Page.lastRefresh (Page.page b') = Some (Page.Date_parse pf s))).
Proof.
  split.
  - intros Hnone. pose proof (fetchPrs_run pf net b) as Hrun.
    by rewrite Hnone in Hrun.
  - intros docs Hdocs.
    unfold Page.fetchPrsFromFirestore, mbind, Page.Client_bind, Page.getDocs.
    rewrite Hdocs. unfold Page.setPrs at 1.
    set (b1 := {| Page.page := _; Page.backend := _ |}).
    destruct (fetchLastRefresh_run pf net b1)
      as (b' & Hrun & Hback & Hprs & Hload & Hview & Hsort & Hlast).
    exists b'. split; [done|]. split; [done|]. split; [done|].
    split; [done|]. split.
    + intros Hkeep.
      assert (Hb1 : Page.fetchLastRefreshFromFirestore pf net b1 = (inl tt, b1)).
      { apply fetchLastRefresh_keeps.
        destruct Hkeep as [?|[?|(data & Hdata & Hf)]]; [by left|by right; left|].
        right. right. exists data. split; [done|].
        destruct Hf as [?|[Hf|Hf]]; [by left|right..].
        - by exists (VString "").
        - by exists (VNumber 0). }
      rewrite Hb1 in Hrun. by injection Hrun as <-.
    + intros data s Hrej Hdata Hf Hs.
      apply (Hlast data (VString s) Hrej Hdata Hf).
      simpl. apply negb_true_iff. by apply String.eqb_neq.
Qed.

(** ** The request URLs *)

Lemma append_assoc_r (s t u : string) : (s +:+ t) +:+ u = s +:+ (t +:+ u).
Proof. induction s as [|c s IH]; append_norm; [done|]. by rewrite IH. Qed.

Lemma append_length (s t : string) :
  String.length (s +:+ t) = String.length s + String.length t.
Proof. induction s as [|c s IH]; append_norm; simpl; [done|]. by rewrite IH. Qed.

Lemma append_inv_head (s t1 t2 : string) : s +:+ t1 = s +:+ t2 → t1 = t2.
Proof.
  induction s as [|c s IH]; append_norm; [done|].
  intros [= Heq]. by apply IH.
Qed.

Lemma append_inv_tail (s1 s2 t1 t2 : string) :
  String.length t1 = String.length t2 →
  s1 +:+ t1 = s2 +:+ t2 → s1 = s2 ∧ t1 = t2.
Proof.
  intros Hlen. revert s2.
  induction s1 as [|c1 s1 IH]; intros [|c2 s2] Heq; append_norm.
  - done.
  - apply (f_equal String.length) in Heq. simpl in Heq.
    rewrite append_length in Heq. lia.
  - apply (f_equal String.length) in Heq. simpl in Heq.
    rewrite append_length in Heq. lia.
  - injection Heq as -> Heq. destruct (IH _ Heq) as [-> ->]. done.
Qed.

Lemma pretty_N_go_without c x s :
  (∀ d, pretty_N_char d ≠ c) → without c s → without c (pretty_N_go x s).
Proof.
  intros Hc. revert s. induction (N.lt_wf_0 x) as [x _ IH]; intros s Hs.
  assert (x = 0 ∨ 0 < x)%N as [->|Hx] by lia.
  - by rewrite pretty_N_go_0.
  - rewrite pretty_N_go_step by done. apply IH.
    + by apply N.div_lt.
    + by split.
Qed.

Lemma pretty_N_without_slash (n : N) : without "/" (pretty n).
Proof.
  unfold pretty, pretty_N. case_decide.
  - by split.
  - apply pretty_N_go_without; [|done].
    intros d. unfold pretty_N_char. by repeat case_match.
Qed.

Lemma char_not_without c s d : ¬ without c (s +:+ String c d).
Proof. induction s as [|a s IH]; append_norm; intros [? ?]; auto. Qed.

Lemma char_split c s1 s2 d1 d2 :
  without c d1 → without c d2 →
  s1 +:+ String c d1 = s2 +:+ String c d2 → s1 = s2 ∧ d1 = d2.
Proof.
  intros H1 H2. revert s2.
  induction s1 as [|c1 s1 IH]; intros [|c2 s2] Heq; append_norm.
  - by simplify_eq.
  - injection Heq as _ ->. by destruct (char_not_without c s2 d2).
  - injection Heq as _ <-. by destruct (char_not_without c s1 d1).
  - injection Heq as -> Heq. destruct (IH _ Heq) as [-> ->]. done.
Qed.

(** X18: under one configuration, two different calls have different
    URLs: the URL of a request determines which listing it asks for, of
    which repository and of which pull request. *)
Theorem X18_url_injective env e1 e2 : url env e1 = url env e2 → e1 = e2.
Proof.
  assert (Hpulls : ∀ (name name' : string) (n : N),
    name +:+ "/pulls?state=open&per_page=20"
    ≠ name' +:+ "/pulls/" +:+ pretty n +:+ "/reviews").
  { intros name name' n Heq.
    change "/pulls?state=open&per_page=20"
      with ("/pulls?state=open&per_page=2" +:+ "0") in Heq.
    change "/reviews" with ("/review" +:+ "s") in Heq.
    rewrite <- !append_assoc_r in Heq.
    by apply append_inv_tail in Heq as [_ [=]]. }
  unfold url, baseUri.
  destruct e1 as [|name1|name1 n1], e2 as [|name2|name2 n2]; intros Heq;
    apply append_inv_head in Heq; try done; try (by injection Heq).
  - apply (append_inv_head "repos/"), append_inv_head in Heq.
    apply (append_inv_head "/") in Heq.
    by apply append_inv_tail in Heq as [-> _].
  - apply (append_inv_head "repos/"), append_inv_head in Heq.
    apply (append_inv_head "/") in Heq. by destruct (Hpulls _ _ _ Heq).
  - apply (append_inv_head "repos/"), append_inv_head in Heq.
    apply (append_inv_head "/") in Heq. symmetry in Heq.
    by destruct (Hpulls _ _ _ Heq).
  - apply (append_inv_head "repos/"), append_inv_head in Heq.
    apply (append_inv_head "/") in Heq.
    rewrite <- !append_assoc_r in Heq.
    apply append_inv_tail in Heq as [Heq _]; [|done].
    change "/pulls/" with ("/pulls" +:+ "/") in Heq.
    rewrite <- !(append_assoc_r _ "/pulls" "/") in Heq.
    rewrite !append_assoc_r in Heq.
    change ("/" +:+ pretty n1) with (String "/" (pretty n1)) in Heq.
    change ("/" +:+ pretty n2) with (String "/" (pretty n2)) in Heq.
    rewrite <- !append_assoc_r in Heq.
    apply char_split in Heq as [Hname Hn]; auto using pretty_N_without_slash.
    apply append_inv_tail in Hname as [-> _]; [|done].
    by rewrite (inj pretty _ _ Hn).
Qed.

Lemma X18_url_injective_witness :
  url sample_env (PullReviews "web" 7) = url sample_env (PullReviews "web" 7)
  ∧ PullReviews "web" 7 = PullReviews "web" 7.
Proof.
  split; [reflexivity|].
  apply (X18_url_injective sample_env (PullReviews "web" 7) (PullReviews "web" 7)).
  reflexivity.
Defined.
